(** * Binary-options hedging simulator: the payoff engine and the scenario sweep

    A shallow embedding of [src/models.py] and [src/simulator.py].

    Number model.  Python floats and numpy float64 scalars are read as exact
    rationals ([Q]); rounding is not modelled.  The three places where the
    source can leave the finite range on inputs it accepts (the logarithm of a
    non-positive ratio, a numpy division by zero, and the normal CDF of an
    infinity) are modelled with the extended values of [npfloat].  Python's own
    float division raises [ZeroDivisionError] and is modelled as such.
    [np.sqrt] is only ever applied to [time_days / 365]; a negative argument
    (which yields nan in numpy) is outside the model, so statements about the
    grid assume [0 <= time_to_expiry] where it matters.  Signed zeros are not
    distinguished.

    Rounding.  Statements over [Q] are kept to what the source's operations
    give whatever their rounding: outcomes, branches, comparisons, orderings
    and the expressions as written.  Where an equality of the exact model
    does not survive binary64 (the mirror symmetry of the interior grid
    points, an expected value between its two P&L values), the module
    [Binary64] evaluates the same expressions in IEEE binary64 and [Rounding]
    records what the code computes. *)

From Stdlib Require Import String QArith Qabs Lqa Lia Bool ZArith List.
From Stdlib Require PrimFloat Uint63.
Import ListNotations.

Open Scope string_scope.
Open Scope Q_scope.

(** ** Comparisons and small numeric helpers *)

(** Python's [a < b] on finite floats. *)
Definition Qltb (a b : Q) : bool := negb (Qle_bool b a).

(** Python's builtin [max(a, b)]: the first argument unless the second is
    strictly greater. *)
Definition py_max (a b : Q) : Q := if Qltb a b then b else a.

(** ** models.py *)

Record BinaryOptionParams : Type := mkBinaryOptionParams {
  current_price : Q;
  strike_price : Q;
  payout_multiplier_up : Q;
  payout_multiplier_down : Q;
  investment_amount : Q;
  probability_up : Q;
  implied_volatility : Q;
  time_to_expiry : Q
}.

Record HedgeParams : Type := mkHedgeParams {
  hedge_amount : Q;
  leverage : Q;
  hedge_direction : string;
  apply_fees : bool;
  fee_rate : Q
}.

(** ** simulator.py: the payoff engine *)

(** [calculate_binary_option_payout]: the profit (not the total return) of a
    winning bet. *)
Definition calculate_binary_option_payout
    (params : BinaryOptionParams) (price_goes_up : bool) : Q :=
  if price_goes_up
  then investment_amount params * (payout_multiplier_up params - 1)
  else investment_amount params * (payout_multiplier_down params - 1).

(** [calculate_hedge_pnl].  The early returns of the source are the inner
    branches of the conditionals, in the source's order: the unleveraged
    case, then the liquidation test of the configured side, then the P&L of
    the open position. *)
Definition calculate_hedge_pnl (hedge : HedgeParams) (price_change_pct : Q) : Q :=
  if Qle_bool (leverage hedge) 1 then
    let pnl :=
      if String.eqb (hedge_direction hedge) "long"
      then hedge_amount hedge * price_change_pct
      else hedge_amount hedge * (- price_change_pct) in
    if apply_fees hedge then
      let position_size := hedge_amount hedge * leverage hedge in
      let total_fees := position_size * fee_rate hedge * 2 in
      pnl - total_fees
    else pnl
  else
    let position_size := hedge_amount hedge * leverage hedge in
    let liquidated :=
      if String.eqb (hedge_direction hedge) "long" then
        let liquidation_point := - (1) / leverage hedge in
        Qle_bool price_change_pct liquidation_point
      else
        let liquidation_point := 1 / leverage hedge in
        Qle_bool liquidation_point price_change_pct in
    if liquidated then
      if apply_fees hedge then
        let entry_fee := position_size * fee_rate hedge in
        - (hedge_amount hedge + entry_fee)
      else - hedge_amount hedge
    else
      let raw_pnl :=
        if String.eqb (hedge_direction hedge) "long"
        then hedge_amount hedge * leverage hedge * price_change_pct
        else hedge_amount hedge * leverage hedge * (- price_change_pct) in
      if apply_fees hedge then
        let total_fees := position_size * fee_rate hedge * 2 in
        raw_pnl - total_fees
      else raw_pnl.

(** The fee charged on opening the position, as the liquidated branch
    computes it; zero when fees are not applied. *)
Definition entry_fee (hedge : HedgeParams) : Q :=
  if apply_fees hedge
  then hedge_amount hedge * leverage hedge * fee_rate hedge
  else 0.

(** The price change at which the configured side is liquidated. *)
Definition liquidation_point (hedge : HedgeParams) : Q :=
  if String.eqb (hedge_direction hedge) "long"
  then - (1) / leverage hedge
  else 1 / leverage hedge.

(** The price move against the position: a fall for a long hedge, a rise for
    a short one. *)
Definition adverse_move (hedge : HedgeParams) (price_change_pct : Q) : Q :=
  if String.eqb (hedge_direction hedge) "long"
  then - price_change_pct
  else price_change_pct.

(** One-sided limits of a function on the rationals. *)
Definition limit_from_above (f : Q -> Q) (a l : Q) : Prop :=
  forall eps, 0 < eps ->
    exists delta, 0 < delta /\
      forall x, a < x -> x < a + delta -> Qabs (f x - l) < eps.

Definition limit_from_below (f : Q -> Q) (a l : Q) : Prop :=
  forall eps, 0 < eps ->
    exists delta, 0 < delta /\
      forall x, a - delta < x -> x < a -> Qabs (f x - l) < eps.

(** The limit of the hedge P&L as the price change approaches the liquidation
    point from the side on which the position is still open. *)
Definition limit_before_liquidation (hedge : HedgeParams) (l : Q) : Prop :=
  if String.eqb (hedge_direction hedge) "long"
  then limit_from_above (calculate_hedge_pnl hedge) (liquidation_point hedge) l
  else limit_from_below (calculate_hedge_pnl hedge) (liquidation_point hedge) l.

(** ** Exceptions and non-finite floats *)

(** The Python exceptions the engine can raise. *)
Inductive exn : Type :=
  | ZeroDivisionError
  | ValueError.

Inductive outcome (A : Type) : Type :=
  | Ok (a : A)
  | Raise (e : exn).

Arguments Ok {A} a.
Arguments Raise {A} e.

Definition bind {A B : Type} (m : outcome A) (k : A -> outcome B) : outcome B :=
  match m with
  | Ok a => k a
  | Raise e => Raise e
  end.

Notation "x <- m ;; k" := (bind m (fun x => k))
  (at level 61, m at next level, right associativity).

(** Python's [a / b] on two Python floats. *)
Definition py_div (a b : Q) : outcome Q :=
  if Qeq_bool b 0 then Raise ZeroDivisionError else Ok (a / b).

(** A numpy float64: a finite value, an infinity ([Inf true] is the negative
    one) or nan. *)
Inductive npfloat : Type :=
  | Fin (q : Q)
  | Inf (negative : bool)
  | NaN.

Definition xopp (a : npfloat) : npfloat :=
  match a with
  | Fin p => Fin (- p)
  | Inf s => Inf (negb s)
  | NaN => NaN
  end.

Definition xadd (a b : npfloat) : npfloat :=
  match a, b with
  | Fin p, Fin q => Fin (p + q)
  | Inf s, Fin _ => Inf s
  | Fin _, Inf s => Inf s
  | Inf s, Inf t => if Bool.eqb s t then Inf s else NaN
  | _, _ => NaN
  end.

Definition xsub (a b : npfloat) : npfloat := xadd a (xopp b).

Definition xmul (a b : npfloat) : npfloat :=
  match a, b with
  | Fin p, Fin q => Fin (p * q)
  | Inf s, Fin q => if Qeq_bool q 0 then NaN else Inf (xorb s (Qltb q 0))
  | Fin q, Inf s => if Qeq_bool q 0 then NaN else Inf (xorb s (Qltb q 0))
  | Inf s, Inf t => Inf (xorb s t)
  | _, _ => NaN
  end.

(** numpy's true division by a finite divisor: a zero divisor gives an
    infinity (or nan for 0/0) and a warning, never an exception. *)
Definition np_divide (a : npfloat) (b : Q) : npfloat :=
  match a with
  | Fin p =>
      if Qeq_bool b 0
      then (if Qeq_bool p 0 then NaN else Inf (Qltb p 0))
      else Fin (p / b)
  | Inf s => Inf (xorb s (Qltb b 0))
  | NaN => NaN
  end.

(** ** The numeric library

    [np.sqrt], [np.log] and [scipy.stats.norm.cdf] on finite arguments inside
    their domains.  They are not rational functions; the engine is
    parametrised by them. *)
Class NumericLib : Type := {
  np_sqrt : Q -> Q;
  np_log : Q -> Q;
  norm_cdf : Q -> Q
}.

(** What the engine relies on for the probability to be one. *)
Definition cdf_is_probability (L : NumericLib) : Prop :=
  forall x, 0 <= norm_cdf x /\ norm_cdf x <= 1.

(** [np.log] of a Python float: minus infinity at zero, nan below. *)
Definition np_log_x {L : NumericLib} (x : Q) : npfloat :=
  if Qltb 0 x then Fin (np_log x)
  else if Qeq_bool x 0 then Inf true
  else NaN.

(** [scipy.stats.norm.cdf] on a float64. *)
Definition norm_cdf_x {L : NumericLib} (d : npfloat) : npfloat :=
  match d with
  | Fin q => Fin (norm_cdf q)
  | Inf false => Fin 1
  | Inf true => Fin 0
  | NaN => NaN
  end.

(** ** numpy array helpers *)

(** Replace the last element of a non-empty list ([y[-1] = stop]). *)
Fixpoint set_last (l : list Q) (v : Q) : list Q :=
  match l with
  | [] => []
  | [_] => [v]
  | x :: t => x :: set_last t v
  end.

(** [np.linspace(start, stop, num)] with the default [endpoint=True]:
    [arange(num) * step + start] with [step = (stop - start) / (num - 1)],
    the last sample then set to [stop]; a negative [num] is refused.  (numpy's
    separate path for a zero step computes the same values.) *)
Definition np_linspace (start stop : Q) (num : Z) : outcome (list Q) :=
  if (num <? 0)%Z then Raise ValueError
  else
    let div := (num - 1)%Z in
    let delta := stop - start in
    let y := map (fun i => inject_Z (Z.of_nat i)) (seq 0 (Z.to_nat num)) in
    let y :=
      if (0 <? div)%Z
      then let step := delta / inject_Z div in map (fun v => v * step) y
      else map (fun v => v * delta) y in
    let y := map (fun v => v + start) y in
    Ok (if (1 <? num)%Z then set_last y stop else y).

(** [np.max] and [np.min] of a one-dimensional array; the empty array is
    refused. *)
Definition np_max (l : list Q) : outcome Q :=
  match l with
  | [] => Raise ValueError
  | x :: t => Ok (fold_left (fun m y => if Qltb m y then y else m) t x)
  end.

Definition np_min (l : list Q) : outcome Q :=
  match l with
  | [] => Raise ValueError
  | x :: t => Ok (fold_left (fun m y => if Qltb y m then y else m) t x)
  end.

(** [np.argmin] over the tail [l], whose first element has index [i]; [best]
    at index [bi] is the least value so far.  Ties keep the first index. *)
Fixpoint argmin_from (l : list Q) (i : nat) (best : Q) (bi : nat) : nat :=
  match l with
  | [] => bi
  | y :: t =>
      if Qltb y best then argmin_from t (S i) y i
      else argmin_from t (S i) best bi
  end.

Definition np_argmin (l : list Q) : outcome nat :=
  match l with
  | [] => Raise ValueError
  | x :: t => Ok (argmin_from t 1 x 0)
  end.

(** ** simulator.py: probability, grid and the scenario sweep *)

(** [calculate_expected_move]. *)
Definition calculate_expected_move {L : NumericLib}
    (current_price iv time_days : Q) : Q :=
  let time_years := time_days / 365.0 in
  current_price * iv * np_sqrt time_years.

(** [calculate_probability_itm].  [current_price / strike_price] divides two
    Python floats; the quotient by [iv * np.sqrt(time_years)] is a numpy
    division. *)
Definition calculate_probability_itm {L : NumericLib}
    (current_price strike_price iv time_days : Q) (direction : string)
    : outcome npfloat :=
  if Qle_bool time_days 0 then
    Ok (Fin (if (String.eqb direction "up" && Qltb strike_price current_price)
                || (String.eqb direction "down" && Qltb current_price strike_price)
             then 1 else 0))
  else
    let time_years := time_days / 365.0 in
    d2 <- (if Qeq_bool current_price strike_price then Ok (Fin 0)
           else
             ratio <- py_div current_price strike_price ;;
             Ok (np_divide (np_log_x ratio) (iv * np_sqrt time_years))) ;;
    let prob_up := norm_cdf_x d2 in
    Ok (if String.eqb direction "up" then prob_up else xsub (Fin 1) prob_up).

(** [generate_price_scenarios]; [num_points] defaults to 100 in the source. *)
Definition generate_price_scenarios {L : NumericLib}
    (current_price strike_price iv time_days : Q) (num_points : Z)
    : outcome (list Q) :=
  let expected_move := calculate_expected_move current_price iv time_days in
  strike_distance_pct <- py_div (Qabs (strike_price - current_price)) current_price ;;
  let max_move_pct :=
    py_max (3 * (expected_move / current_price)) (strike_distance_pct * 1.5) in
  np_linspace (- max_move_pct) max_move_pct num_points.

(** The dictionary returned by [simulate_scenarios] (and stored in
    [self.results]); the keys that echo an input carry the prefix [res_] like
    the others. *)
Record Results : Type := mkResults {
  res_price_changes : list Q;
  res_total_pnl : list Q;
  res_binary_pnl : list Q;
  res_hedge_pnl : list Q;
  res_max_profit : Q;
  res_max_loss : Q;
  res_break_even_points : list npfloat;
  res_expected_value : npfloat;
  res_current_price : Q;
  res_strike_price : Q;
  res_realistic_probability : npfloat;
  res_expected_move : Q;
  res_implied_volatility : Q;
  res_time_to_expiry : Q;
  res_liquidation_long : option Q;
  res_liquidation_short : option Q;
  res_leverage : Q;
  res_hedge_direction : string;
  res_apply_fees : bool;
  res_fee_rate : Q
}.

(** The half-width of the grid, lines 152-158 of [simulate_scenarios]. *)
Definition grid_half_width {L : NumericLib}
    (binary_params : BinaryOptionParams) (hedge_params : HedgeParams)
    : outcome Q :=
  let expected_move :=
    calculate_expected_move (current_price binary_params)
      (implied_volatility binary_params) (time_to_expiry binary_params) in
  strike_distance_pct <-
    py_div (Qabs (strike_price binary_params - current_price binary_params))
      (current_price binary_params) ;;
  let max_move_pct :=
    py_max (3 * (expected_move / current_price binary_params))
      (strike_distance_pct * 1.5) in
  Ok (if Qltb 1 (leverage hedge_params) then
        let liquidation_range := 1.5 / leverage hedge_params in
        py_max max_move_pct liquidation_range
      else max_move_pct).

(** The body of the loop over the grid: binary, hedge and total P&L at one
    price change. *)
Definition binary_pnl_at (binary_params : BinaryOptionParams)
    (binary_direction : string) (price_change : Q) : Q :=
  let actual_price := current_price binary_params * (1 + price_change) in
  let price_went_up := Qltb (strike_price binary_params) actual_price in
  let binary_wins :=
    (String.eqb binary_direction "up" && price_went_up)
    || (String.eqb binary_direction "down" && negb price_went_up) in
  if binary_wins then
    if String.eqb binary_direction "up"
    then calculate_binary_option_payout binary_params true
    else calculate_binary_option_payout binary_params false
  else - investment_amount binary_params.

Definition total_pnl_at (binary_params : BinaryOptionParams)
    (hedge_params : HedgeParams) (binary_direction : string)
    (price_change : Q) : Q :=
  binary_pnl_at binary_params binary_direction price_change
  + calculate_hedge_pnl hedge_params price_change.

(** The crossing test of the break-even scan on a consecutive pair. *)
Definition crossing (y0 y1 : Q) : bool :=
  (Qle_bool y0 0 && Qltb 0 y1) || (Qle_bool 0 y0 && Qltb y1 0).

(** The interpolated break-even of a pair; the quotient is a numpy
    division. *)
Definition be_price (x0 x1 y0 y1 : Q) : npfloat :=
  xadd (Fin x0) (xmul (Fin (x1 - x0)) (np_divide (Fin (- y0)) (y1 - y0))).

(** The scan over [range(len(total_pnl) - 1)]; [xs] is [price_changes] and
    [ys] is [total_pnl], of the same length. *)
Fixpoint break_even_scan (xs ys : list Q) : list npfloat :=
  match xs, ys with
  | x0 :: ((x1 :: _) as xs'), y0 :: ((y1 :: _) as ys') =>
      if crossing y0 y1
      then be_price x0 x1 y0 y1 :: break_even_scan xs' ys'
      else break_even_scan xs' ys'
  | _, _ => []
  end.

(** [simulate_scenarios]; [num_points] defaults to 100 in the source.  The
    returned dictionary is also assigned to [self.results]. *)
Definition simulate_scenarios {L : NumericLib}
    (binary_params : BinaryOptionParams) (hedge_params : HedgeParams)
    (binary_direction : string) (num_points : Z) : outcome Results :=
  let expected_move :=
    calculate_expected_move (current_price binary_params)
      (implied_volatility binary_params) (time_to_expiry binary_params) in
  max_move_pct <- grid_half_width binary_params hedge_params ;;
  price_changes <- np_linspace (- max_move_pct) max_move_pct num_points ;;
  realistic_prob <-
    calculate_probability_itm (current_price binary_params)
      (strike_price binary_params) (implied_volatility binary_params)
      (time_to_expiry binary_params) binary_direction ;;
  let total_pnl :=
    map (total_pnl_at binary_params hedge_params binary_direction) price_changes in
  let binary_pnl := map (binary_pnl_at binary_params binary_direction) price_changes in
  let hedge_pnl := map (calculate_hedge_pnl hedge_params) price_changes in
  max_profit <- np_max total_pnl ;;
  max_loss <- np_min total_pnl ;;
  let break_even_points := break_even_scan price_changes total_pnl in
  let expected_move_pct := expected_move / current_price binary_params in
  up_idx <- np_argmin (map (fun pc => Qabs (pc - expected_move_pct)) price_changes) ;;
  down_idx <- np_argmin (map (fun pc => Qabs (pc + expected_move_pct)) price_changes) ;;
  let expected_value :=
    xadd (xmul realistic_prob (Fin (nth up_idx total_pnl 0)))
         (xmul (xsub (Fin 1) realistic_prob) (Fin (nth down_idx total_pnl 0))) in
  let liquidation :=
    if Qltb 1 (leverage hedge_params) then
      let liquidation_pct := - (100.0) / leverage hedge_params in
      if String.eqb (hedge_direction hedge_params) "long"
      then (Some (liquidation_pct / 100.0), None)
      else (None, Some (- liquidation_pct / 100.0))
    else (None, None) in
  Ok {| res_price_changes := price_changes;
        res_total_pnl := total_pnl;
        res_binary_pnl := binary_pnl;
        res_hedge_pnl := hedge_pnl;
        res_max_profit := max_profit;
        res_max_loss := max_loss;
        res_break_even_points := break_even_points;
        res_expected_value := expected_value;
        res_current_price := current_price binary_params;
        res_strike_price := strike_price binary_params;
        res_realistic_probability := realistic_prob;
        res_expected_move := expected_move;
        res_implied_volatility := implied_volatility binary_params;
        res_time_to_expiry := time_to_expiry binary_params;
        res_liquidation_long := fst liquidation;
        res_liquidation_short := snd liquidation;
        res_leverage := leverage hedge_params;
        res_hedge_direction := hedge_direction hedge_params;
        res_apply_fees := apply_fees hedge_params;
        res_fee_rate := fee_rate hedge_params |}.

(** ** Vocabulary of the statements *)

(** The half-width [max_move_pct] that [generate_price_scenarios] derives. *)
Definition scenario_half_width {L : NumericLib}
    (current_price strike_price iv time_days : Q) : Q :=
  py_max (3 * (calculate_expected_move current_price iv time_days / current_price))
         (Qabs (strike_price - current_price) / current_price * 1.5).

(** Two option records that agree on every field but [probability_up]. *)
Definition same_except_probability_up (p q : BinaryOptionParams) : Prop :=
  current_price p = current_price q
  /\ strike_price p = strike_price q
  /\ payout_multiplier_up p = payout_multiplier_up q
  /\ payout_multiplier_down p = payout_multiplier_down q
  /\ investment_amount p = investment_amount q
  /\ implied_volatility p = implied_volatility q
  /\ time_to_expiry p = time_to_expiry q.

(** [expected_move / current_price], the target of the two nearest-index
    searches. *)
Definition expected_move_pct {L : NumericLib} (binary_params : BinaryOptionParams) : Q :=
  calculate_expected_move (current_price binary_params)
    (implied_volatility binary_params) (time_to_expiry binary_params)
  / current_price binary_params.

(** [k] is the first position of the least element of [d]. *)
Definition first_min (d : list Q) (k : nat) : Prop :=
  (k < length d)%nat
  /\ (forall j, (j < length d)%nat -> nth k d 0 <= nth j d 0)
  /\ (forall j, (j < k)%nat -> nth k d 0 < nth j d 0).

(** [i] is the first index of [l] at which the distance to [target] is
    least. *)
Definition nearest_index (l : list Q) (target : Q) (i : nat) : Prop :=
  (i < length l)%nat
  /\ (forall j, (j < length l)%nat ->
        Qabs (nth i l 0 - target) <= Qabs (nth j l 0 - target))
  /\ (forall j, (j < i)%nat ->
        Qabs (nth i l 0 - target) < Qabs (nth j l 0 - target)).

(** The probability computation stays finite: the expiry has passed, the
    price is at the strike, or the volatility term is non-zero. *)
Definition volatility_term_defined {L : NumericLib}
    (binary_params : BinaryOptionParams) : Prop :=
  time_to_expiry binary_params <= 0
  \/ current_price binary_params == strike_price binary_params
  \/ ~ implied_volatility binary_params
        * np_sqrt (time_to_expiry binary_params / 365.0) == 0.

(** The liquidation test of [calculate_hedge_pnl]: the position is leveraged
    and the price change has reached the liquidation point of its side. *)
Definition is_liquidated (hedge : HedgeParams) (price_change_pct : Q) : bool :=
  negb (Qle_bool (leverage hedge) 1)
  && (if String.eqb (hedge_direction hedge) "long"
      then Qle_bool price_change_pct (- (1) / leverage hedge)
      else Qle_bool (1 / leverage hedge) price_change_pct).

(** ** The grid and the expected value in binary64

    The same expressions of [simulator.py] evaluated in IEEE binary64, the
    arithmetic of Python floats and numpy float64: every operation below
    ([+], [-], [*], [/], [sqrt], comparisons) rounds as the source's does.
    This is what evaluates the code where rounding decides; the logarithm and
    the normal CDF have no binary64 counterpart here, so the probability is
    not part of it. *)
Module Binary64.

Import PrimFloat.
Local Open Scope float_scope.

(** An array index as a float64, as [np.arange] holds it. *)
Definition of_index (i : Z) : float := of_uint63 (Uint63.of_Z i).

Definition py_max (a b : float) : float := if ltb a b then b else a.

Definition py_div (a b : float) : outcome float :=
  if eqb b 0 then Raise ZeroDivisionError else Ok (a / b).

Fixpoint set_last (l : list float) (v : float) : list float :=
  match l with
  | [] => []
  | [_] => [v]
  | x :: t => x :: set_last t v
  end.

Definition np_linspace (start stop : float) (num : Z) : outcome (list float) :=
  if (num <? 0)%Z then Raise ValueError
  else
    let div := (num - 1)%Z in
    let delta := stop - start in
    let y := map (fun i => of_index (Z.of_nat i)) (seq 0 (Z.to_nat num)) in
    let y :=
      if (0 <? div)%Z
      then let step := delta / of_index div in map (fun v => v * step) y
      else map (fun v => v * delta) y in
    let y := map (fun v => v + start) y in
    Ok (if (1 <? num)%Z then set_last y stop else y).

Definition calculate_expected_move (current_price iv time_days : float) : float :=
  let time_years := time_days / 365.0 in
  current_price * iv * sqrt time_years.

Definition generate_price_scenarios
    (current_price strike_price iv time_days : float) (num_points : Z)
    : outcome (list float) :=
  let expected_move := calculate_expected_move current_price iv time_days in
  bind (py_div (abs (strike_price - current_price)) current_price)
    (fun strike_distance_pct =>
       let max_move_pct :=
         py_max (3 * (expected_move / current_price)) (strike_distance_pct * 1.5) in
       np_linspace (- max_move_pct) max_move_pct num_points).

(** The liquidation point of a long hedge as [calculate_hedge_pnl] tests it
    (line 102) and as [simulate_scenarios] reports it (lines 243-246). *)
Definition liquidation_point_long (leverage : float) : float :=
  - (1.0) / leverage.

Definition reported_liquidation_long (leverage : float) : float :=
  let liquidation_pct := - (100.0) / leverage in
  liquidation_pct / 100.0.

(** Line 233: [realistic_prob * total_pnl[up_idx]
    + (1 - realistic_prob) * total_pnl[down_idx]]. *)
Definition expected_value (realistic_prob pnl_up pnl_down : float) : float :=
  realistic_prob * pnl_up + (1 - realistic_prob) * pnl_down.

End Binary64.

(** ** Concrete inputs

    A rational stand-in for the numeric library, to run the engine on
    concrete inputs: a square root truncated to six decimals, the first term
    of the area-tangent series for the logarithm, and a rational sigmoid for
    the normal CDF. *)
Module RationalLib.

Definition approx_sqrt (x : Q) : Q :=
  inject_Z (Z.sqrt (Qnum x * 1000000000000 / Zpos (Qden x))) / 1000000.

Definition approx_log (x : Q) : Q := 2 * (x - 1) / (x + 1).

Definition approx_cdf (x : Q) : Q := (1 + x / (1 + Qabs x)) / 2.

Definition lib : NumericLib :=
  {| np_sqrt := approx_sqrt; np_log := approx_log; norm_cdf := approx_cdf |}.

End RationalLib.

(** The option of the spec's concrete scenario: price 100 at strike 100,
    payouts 1.6 and 1.2 on 1000, 30% volatility; [t] days to expiry. *)
Definition option_at_strike (t : Q) : BinaryOptionParams :=
  mkBinaryOptionParams 100 100 1.6 1.2 1000 0.5 0.30 t.

(** A 500 hedge at the given leverage. *)
Definition hedge_500 (lev : Q) (dir : string) (fees : bool) : HedgeParams :=
  mkHedgeParams 500 lev dir fees 0.001.

(** * Properties *)

(** ** Comparisons *)

Lemma Qltb_true (a b : Q) : Qltb a b = true <-> a < b.
Proof.
  unfold Qltb. rewrite negb_true_iff.
  split; intro H.
  - destruct (Qlt_le_dec a b) as [Hlt | Hle]; [exact Hlt |].
    apply Qle_bool_iff in Hle. congruence.
  - destruct (Qle_bool b a) eqn:E; [| reflexivity].
    apply Qle_bool_iff in E. lra.
Qed.

Lemma Qltb_false (a b : Q) : Qltb a b = false <-> b <= a.
Proof.
  unfold Qltb. rewrite negb_false_iff. apply Qle_bool_iff.
Qed.

Lemma Qle_bool_false (a b : Q) : Qle_bool a b = false <-> b < a.
Proof.
  split; intro H.
  - destruct (Qlt_le_dec b a) as [Hlt | Hle]; [exact Hlt |].
    apply Qle_bool_iff in Hle. congruence.
  - destruct (Qle_bool a b) eqn:E; [| reflexivity].
    apply Qle_bool_iff in E. lra.
Qed.

Lemma py_max_lub_l (a b : Q) : a <= py_max a b.
Proof.
  unfold py_max. destruct (Qltb a b) eqn:E.
  - apply Qltb_true in E. lra.
  - lra.
Qed.

Lemma py_max_lub_r (a b : Q) : b <= py_max a b.
Proof.
  unfold py_max. destruct (Qltb a b) eqn:E.
  - lra.
  - apply Qltb_false in E. exact E.
Qed.

Lemma py_max_cases (a b : Q) :
  (a < b /\ py_max a b = b) \/ (b <= a /\ py_max a b = a).
Proof.
  unfold py_max. destruct (Qltb a b) eqn:E.
  - left. apply Qltb_true in E. auto.
  - right. apply Qltb_false in E. auto.
Qed.

(** Case analysis on the boolean comparisons, leaving the order facts in the
    context for [lra]. *)
Ltac cmp_cases :=
  repeat match goal with
    | H : Qle_bool _ _ = true |- _ => apply Qle_bool_iff in H
    | H : Qle_bool _ _ = false |- _ => apply Qle_bool_false in H
    | H : Qltb _ _ = true |- _ => apply Qltb_true in H
    | H : Qltb _ _ = false |- _ => apply Qltb_false in H
    | H : Qeq_bool _ _ = true |- _ => apply Qeq_bool_iff in H
    | H : Qeq_bool _ _ = false |- _ => apply Qeq_bool_neq in H
    end.

(** Closed comparisons between rational constants, by evaluation. *)
Ltac by_evaluation :=
  match goal with
  | |- _ <= _ => apply Qle_bool_iff; vm_compute; reflexivity
  | |- _ < _ => apply Qltb_true; vm_compute; reflexivity
  | |- _ == _ => apply Qeq_bool_iff; vm_compute; reflexivity
  | |- ~ _ == _ => apply Qeq_bool_neq; vm_compute; reflexivity
  | |- _ = _ => vm_compute; reflexivity
  end.

(** ** The hedge P&L *)

Lemma Qdiv_mult_cancel (a b : Q) : ~ b == 0 -> (a / b) * b == a.
Proof. intro Hb. field. exact Hb. Qed.

(** An open leveraged position loses less than the collateral before fees. *)
Lemma open_long_above_collateral (h l pc : Q) :
  0 <= h -> 1 < l -> - (1) / l < pc -> - h <= h * l * pc.
Proof.
  intros Hh Hl Hpc.
  assert (Hc : (- (1) / l) * l == - (1)) by (apply Qdiv_mult_cancel; lra).
  assert (Hlp : - (1) < pc * l) by nra.
  nra.
Qed.

Lemma open_short_above_collateral (h l pc : Q) :
  0 <= h -> 1 < l -> pc < 1 / l -> - h <= h * l * (- pc).
Proof.
  intros Hh Hl Hpc.
  assert (Hc : (1 / l) * l == 1) by (apply Qdiv_mult_cancel; lra).
  assert (Hlp : pc * l < 1) by nra.
  nra.
Qed.

(** The closed form of the hedge P&L on the open side of the liquidation
    point. *)
Lemma hedge_pnl_open_long (hedge : HedgeParams) (pc : Q) :
  1 < leverage hedge ->
  String.eqb (hedge_direction hedge) "long" = true ->
  liquidation_point hedge < pc ->
  calculate_hedge_pnl hedge pc
  == hedge_amount hedge * leverage hedge * pc - 2 * entry_fee hedge.
Proof.
  intros Hl Hd Hpc. unfold calculate_hedge_pnl, liquidation_point, entry_fee in *.
  rewrite Hd in *.
  destruct (Qle_bool (leverage hedge) 1) eqn:E1; cmp_cases; [lra |].
  destruct (Qle_bool pc (- (1) / leverage hedge)) eqn:E2; cmp_cases; [lra |].
  destruct (apply_fees hedge); lra.
Qed.

Lemma hedge_pnl_open_short (hedge : HedgeParams) (pc : Q) :
  1 < leverage hedge ->
  String.eqb (hedge_direction hedge) "long" = false ->
  pc < liquidation_point hedge ->
  calculate_hedge_pnl hedge pc
  == hedge_amount hedge * leverage hedge * (- pc) - 2 * entry_fee hedge.
Proof.
  intros Hl Hd Hpc. unfold calculate_hedge_pnl, liquidation_point, entry_fee in *.
  rewrite Hd in *.
  destruct (Qle_bool (leverage hedge) 1) eqn:E1; cmp_cases; [lra |].
  destruct (Qle_bool (1 / leverage hedge) pc) eqn:E2; cmp_cases; [lra |].
  destruct (apply_fees hedge); lra.
Qed.

(** At or past the liquidation point the loss is the collateral and the
    entry fee, however far the price has moved. *)
Lemma hedge_pnl_liquidated (hedge : HedgeParams) (pc : Q) :
  1 < leverage hedge ->
  1 / leverage hedge <= adverse_move hedge pc ->
  calculate_hedge_pnl hedge pc == - (hedge_amount hedge + entry_fee hedge).
Proof.
  intros Hl Hpc. unfold calculate_hedge_pnl, adverse_move, entry_fee in *.
  assert (Hn : - (1) / leverage hedge == - (1 / leverage hedge))
    by (field; lra).
  destruct (Qle_bool (leverage hedge) 1) eqn:E1; cmp_cases; [lra |].
  destruct (String.eqb (hedge_direction hedge) "long").
  - destruct (Qle_bool pc (- (1) / leverage hedge)) eqn:E2; cmp_cases; [| lra].
    destruct (apply_fees hedge); lra.
  - destruct (Qle_bool (1 / leverage hedge) pc) eqn:E2; cmp_cases; [| lra].
    destruct (apply_fees hedge); lra.
Qed.

Lemma entry_fee_nonneg (hedge : HedgeParams) :
  0 <= hedge_amount hedge -> 0 <= leverage hedge -> 0 <= fee_rate hedge ->
  0 <= entry_fee hedge.
Proof.
  intros Hh Hl Hf. unfold entry_fee. destruct (apply_fees hedge); [| lra].
  apply Qmult_le_0_compat; [apply Qmult_le_0_compat |]; assumption.
Qed.

(** The floor that holds on every branch: collateral plus entry and exit
    fee. *)
Lemma hedge_pnl_floor_round_trip (hedge : HedgeParams) (pc : Q) :
  0 <= hedge_amount hedge -> 1 <= leverage hedge -> 0 <= fee_rate hedge ->
  1 < leverage hedge \/ adverse_move hedge pc <= 1 ->
  - (hedge_amount hedge + 2 * entry_fee hedge) <= calculate_hedge_pnl hedge pc.
Proof.
  intros Hh Hl Hf Hdom.
  assert (Hfee : 0 <= entry_fee hedge) by (apply entry_fee_nonneg; lra).
  destruct (Qlt_le_dec 1 (leverage hedge)) as [Hlev | Hone].
  - (* leveraged *)
    destruct (Qlt_le_dec (adverse_move hedge pc) (1 / leverage hedge))
      as [Hopen | Hliq].
    + unfold adverse_move in Hopen.
      destruct (String.eqb (hedge_direction hedge) "long") eqn:Hd.
      * rewrite hedge_pnl_open_long; auto.
        -- pose proof (open_long_above_collateral (hedge_amount hedge)
                         (leverage hedge) pc Hh Hlev) as Hc.
           assert (Hn : - (1) / leverage hedge == - (1 / leverage hedge))
             by (field; lra).
           lra.
        -- unfold liquidation_point. rewrite Hd.
           assert (Hn : - (1) / leverage hedge == - (1 / leverage hedge))
             by (field; lra).
           lra.
      * rewrite hedge_pnl_open_short; auto.
        -- pose proof (open_short_above_collateral (hedge_amount hedge)
                         (leverage hedge) pc Hh Hlev Hopen) as Hc.
           lra.
        -- unfold liquidation_point. rewrite Hd. exact Hopen.
    + rewrite hedge_pnl_liquidated; auto. lra.
  - (* leverage 1: linear, no liquidation *)
    destruct Hdom as [Hlev | Hadv]; [lra |].
    assert (Hl1 : leverage hedge == 1) by lra.
    unfold calculate_hedge_pnl, adverse_move, entry_fee in *.
    destruct (Qle_bool (leverage hedge) 1) eqn:E1; cmp_cases; [| lra].
    destruct (String.eqb (hedge_direction hedge) "long");
      destruct (apply_fees hedge); rewrite ?Hl1; nra.
Qed.

(** C1 (as amended).  For a hedge with non-negative collateral, leverage at
    least 1 and a fee rate in [0,1), the hedge P&L is at least minus the
    collateral plus twice the entry fee (entry and exit fee, zero when fees
    are not applied), for every price change when the position is leveraged
    and for adverse moves of at most 100% at leverage 1; with fees not
    applied this is the floor minus the collateral plus the entry fee. *)
Theorem hedge_pnl_loss_floor (hedge : HedgeParams) (pc : Q) :
  0 <= hedge_amount hedge ->
  1 <= leverage hedge ->
  0 <= fee_rate hedge /\ fee_rate hedge < 1 ->
  1 < leverage hedge \/ adverse_move hedge pc <= 1 ->
  - (hedge_amount hedge + 2 * entry_fee hedge) <= calculate_hedge_pnl hedge pc
  /\ (apply_fees hedge = false ->
      - (hedge_amount hedge + entry_fee hedge) <= calculate_hedge_pnl hedge pc).
Proof.
  intros Hh Hl [Hf _] Hdom.
  pose proof (hedge_pnl_floor_round_trip hedge pc Hh Hl Hf Hdom) as Hfloor.
  split; [exact Hfloor |].
  intro Hoff. unfold entry_fee in *. rewrite Hoff in *. lra.
Qed.

Lemma hedge_pnl_loss_floor_witness :
  - (hedge_amount (hedge_500 10 "long" true)
     + 2 * entry_fee (hedge_500 10 "long" true))
  <= calculate_hedge_pnl (hedge_500 10 "long" true) (- 0.0995)
  /\ (apply_fees (hedge_500 10 "long" true) = false ->
      - (hedge_amount (hedge_500 10 "long" true)
         + entry_fee (hedge_500 10 "long" true))
      <= calculate_hedge_pnl (hedge_500 10 "long" true) (- 0.0995)).
Proof.
  apply hedge_pnl_loss_floor; simpl; [| | split | left]; by_evaluation.
Defined.

(** C1 as stated fails.  With fees applied, a leveraged long just above its
    liquidation point has paid entry and exit fee on top of nearly the whole
    collateral: -507.5 against a floor of -505.  At leverage 1 there is no
    liquidation, so a fall of 200% loses twice the collateral. *)
Lemma hedge_pnl_below_claimed_floor :
  (calculate_hedge_pnl (hedge_500 10 "long" true) (- 0.0995) == - 507.5
   /\ - (hedge_amount (hedge_500 10 "long" true)
         + entry_fee (hedge_500 10 "long" true)) == - (505)
   /\ ~ - (hedge_amount (hedge_500 10 "long" true)
           + entry_fee (hedge_500 10 "long" true))
        <= calculate_hedge_pnl (hedge_500 10 "long" true) (- 0.0995))
  /\ (calculate_hedge_pnl (hedge_500 1 "long" false) (- (2)) == - (1000)
      /\ ~ - (hedge_amount (hedge_500 1 "long" false)
              + entry_fee (hedge_500 1 "long" false))
           <= calculate_hedge_pnl (hedge_500 1 "long" false) (- (2))).
Proof.
  repeat split; try reflexivity; intro H; vm_compute in H; apply H; reflexivity.
Qed.

(** C9.  A leveraged long hedge without fees returns exactly minus the
    collateral at every price change at or below [-1/leverage]; with a
    collateral of 500 at leverage 10, both -0.15 and -0.50 give -500. *)
Theorem liquidated_long_without_fees :
  (forall (hedge : HedgeParams) (pc : Q),
      1 < leverage hedge ->
      hedge_direction hedge = "long" ->
      apply_fees hedge = false ->
      pc <= - (1) / leverage hedge ->
      calculate_hedge_pnl hedge pc = - hedge_amount hedge)
  /\ (forall fee : Q,
         calculate_hedge_pnl (mkHedgeParams 500 10 "long" false fee) (- 0.15)
         = - (500)
         /\ calculate_hedge_pnl (mkHedgeParams 500 10 "long" false fee) (- 0.50)
            = - (500)).
Proof.
  split.
  - intros hedge pc Hl Hd Hfees Hpc. unfold calculate_hedge_pnl.
    rewrite Hd, Hfees. simpl String.eqb. cbv iota.
    destruct (Qle_bool (leverage hedge) 1) eqn:E1; cmp_cases; [lra |].
    apply Qle_bool_iff in Hpc. rewrite Hpc. reflexivity.
  - intro fee. split; reflexivity.
Qed.

Lemma liquidated_long_without_fees_witness :
  calculate_hedge_pnl (hedge_500 10 "long" false) (- 0.15)
  = - hedge_amount (hedge_500 10 "long" false).
Proof.
  apply (proj1 liquidated_long_without_fees); simpl; by_evaluation.
Defined.

(** The P&L of an open leveraged position tends to minus the collateral minus
    entry and exit fee at the liquidation point. *)
Lemma limit_open_position (hedge : HedgeParams) :
  0 <= hedge_amount hedge -> 1 < leverage hedge ->
  limit_before_liquidation hedge
    (- (hedge_amount hedge + 2 * entry_fee hedge)).
Proof.
  intros Hh Hl. unfold limit_before_liquidation.
  set (k := hedge_amount hedge * leverage hedge).
  assert (Hk : 0 <= k) by (unfold k; nra).
  destruct (String.eqb (hedge_direction hedge) "long") eqn:Hd.
  - intros eps Heps. exists (eps / (k + 1)). split.
    + apply Qlt_shift_div_l; lra.
    + intros x Hx1 Hx2.
      rewrite hedge_pnl_open_long; auto.
      assert (Hc : (eps / (k + 1)) * (k + 1) == eps)
        by (apply Qdiv_mult_cancel; lra).
      assert (Hlp : liquidation_point hedge * leverage hedge == - (1)).
      { unfold liquidation_point. rewrite Hd. apply Qdiv_mult_cancel. lra. }
      fold k. set (lp := liquidation_point hedge) in *.
      set (d := eps / (k + 1)) in *.
      assert (Hkd : k * (x - lp) < eps).
      { assert (k * (x - lp) <= k * d) by nra. nra. }
      assert (Hid : k * x - 2 * entry_fee hedge
                    - - (hedge_amount hedge + 2 * entry_fee hedge)
                    == k * (x - lp)).
      { unfold k in *. nra. }
      rewrite Hid. apply Qabs_Qlt_condition. split; nra.
  - intros eps Heps. exists (eps / (k + 1)). split.
    + apply Qlt_shift_div_l; lra.
    + intros x Hx1 Hx2.
      rewrite hedge_pnl_open_short; auto.
      assert (Hc : (eps / (k + 1)) * (k + 1) == eps)
        by (apply Qdiv_mult_cancel; lra).
      assert (Hlp : liquidation_point hedge * leverage hedge == 1).
      { unfold liquidation_point. rewrite Hd. apply Qdiv_mult_cancel. lra. }
      fold k. set (lp := liquidation_point hedge) in *.
      set (d := eps / (k + 1)) in *.
      assert (Hkd : k * (lp - x) < eps).
      { assert (k * (lp - x) <= k * d) by nra. nra. }
      assert (Hid : k * - x - 2 * entry_fee hedge
                    - - (hedge_amount hedge + 2 * entry_fee hedge)
                    == k * (lp - x)).
      { unfold k in *. nra. }
      rewrite Hid. apply Qabs_Qlt_condition. split; nra.
Qed.

Lemma limit_before_liquidation_ext (hedge : HedgeParams) (l l' : Q) :
  l == l' ->
  limit_before_liquidation hedge l -> limit_before_liquidation hedge l'.
Proof.
  intros Hll. unfold limit_before_liquidation.
  destruct (String.eqb (hedge_direction hedge) "long");
    intros H eps Heps; destruct (H eps Heps) as [delta [Hd Hx]];
    exists delta; (split; [exact Hd |]); intros x H1 H2;
    rewrite <- Hll; apply Hx; assumption.
Qed.

(** C3 (as amended).  For a leveraged hedge with non-negative collateral, the
    P&L of the open position tends, at the liquidation point, to minus the
    collateral minus entry and exit fee, while the value at the liquidation
    point is minus the collateral minus the entry fee alone: the two agree,
    and the P&L is continuous there, when fees are not applied. *)
Theorem liquidation_boundary (hedge : HedgeParams) :
  0 <= hedge_amount hedge ->
  1 < leverage hedge ->
  limit_before_liquidation hedge
    (- (hedge_amount hedge + 2 * entry_fee hedge))
  /\ calculate_hedge_pnl hedge (liquidation_point hedge)
     == - (hedge_amount hedge + entry_fee hedge)
  /\ (apply_fees hedge = false ->
      limit_before_liquidation hedge
        (- (hedge_amount hedge + entry_fee hedge))).
Proof.
  intros Hh Hl.
  pose proof (limit_open_position hedge Hh Hl) as Hlim.
  split; [exact Hlim | split].
  - apply hedge_pnl_liquidated; [exact Hl |].
    unfold adverse_move, liquidation_point.
    destruct (String.eqb (hedge_direction hedge) "long").
    + assert (Hn : - (1) / leverage hedge == - (1 / leverage hedge))
        by (field; lra).
      lra.
    + lra.
  - intro Hoff. revert Hlim. apply limit_before_liquidation_ext.
    unfold entry_fee. rewrite Hoff. lra.
Qed.

Lemma liquidation_boundary_witness :
  limit_before_liquidation (hedge_500 10 "short" false)
    (- (hedge_amount (hedge_500 10 "short" false)
        + 2 * entry_fee (hedge_500 10 "short" false)))
  /\ calculate_hedge_pnl (hedge_500 10 "short" false)
       (liquidation_point (hedge_500 10 "short" false))
     == - (hedge_amount (hedge_500 10 "short" false)
           + entry_fee (hedge_500 10 "short" false))
  /\ (apply_fees (hedge_500 10 "short" false) = false ->
      limit_before_liquidation (hedge_500 10 "short" false)
        (- (hedge_amount (hedge_500 10 "short" false)
            + entry_fee (hedge_500 10 "short" false)))).
Proof.
  apply liquidation_boundary; simpl; by_evaluation.
Defined.

(** C3 as stated fails with fees applied.  For a collateral of 500 at
    leverage 10 and a fee rate of 0.1%, the open long position tends to -510
    at the liquidation point -0.1, while the liquidated value is -505. *)
Lemma liquidation_jump_with_fees :
  calculate_hedge_pnl (hedge_500 10 "long" true)
    (liquidation_point (hedge_500 10 "long" true))
  == - (505)
  /\ - (hedge_amount (hedge_500 10 "long" true)
        + entry_fee (hedge_500 10 "long" true)) == - (505)
  /\ ~ limit_before_liquidation (hedge_500 10 "long" true)
         (- (hedge_amount (hedge_500 10 "long" true)
             + entry_fee (hedge_500 10 "long" true))).
Proof.
  split; [reflexivity | split; [reflexivity |]].
  intro H. unfold limit_before_liquidation in H. simpl in H.
  destruct (H 1) as [delta [Hd Hx]]; [lra |].
  set (x := liquidation_point (hedge_500 10 "long" true)
            + (if Qltb delta 0.0001 then delta / 2 else 0.00005)).
  assert (Hlp : liquidation_point (hedge_500 10 "long" true) == - 0.1)
    by reflexivity.
  assert (Hstep : 0 < x - liquidation_point (hedge_500 10 "long" true)
                  /\ x - liquidation_point (hedge_500 10 "long" true) < delta
                  /\ x - liquidation_point (hedge_500 10 "long" true) <= 0.00005).
  { unfold x. destruct (Qltb delta 0.0001) eqn:E; cmp_cases.
    - assert (Hhalf : delta / 2 == delta * (1 # 2)) by (field).
      rewrite Hhalf. lra.
    - lra. }
  destruct Hstep as [H0 [H1 H2]].
  specialize (Hx x). 
  assert (Hopen : calculate_hedge_pnl (hedge_500 10 "long" true) x
                  == 500 * 10 * x - 2 * 5).
  { assert (Hfee5 : entry_fee (hedge_500 10 "long" true) == 5) by reflexivity.
    rewrite hedge_pnl_open_long; [| by_evaluation | reflexivity | lra].
    rewrite Hfee5. reflexivity. }
  assert (Hfee : - (hedge_amount (hedge_500 10 "long" true)
                    + entry_fee (hedge_500 10 "long" true)) == - (505))
    by reflexivity.
  rewrite Hopen, Hfee in Hx.
  assert (Habs : Qabs (500 * 10 * x - 2 * 5 - - (505)) < 1)
    by (apply Hx; lra).
  apply Qabs_Qlt_condition in Habs. lra.
Qed.

(** ** The grid *)

Lemma set_last_length (l : list Q) (v : Q) :
  length (set_last l v) = length l.
Proof.
  induction l as [| x t IH]; [reflexivity |].
  destruct t as [| y t']; [reflexivity |].
  change (set_last (x :: y :: t') v) with (x :: set_last (y :: t') v).
  simpl length in *. rewrite IH. reflexivity.
Qed.

Lemma set_last_nth_error (l : list Q) (v : Q) (i : nat) :
  (i < length l)%nat ->
  nth_error (set_last l v) i
  = if Nat.eqb i (length l - 1) then Some v else nth_error l i.
Proof.
  revert i. induction l as [| x t IH]; intros i Hi; [simpl in Hi; lia |].
  destruct t as [| y t'].
  - simpl in Hi. assert (i = 0)%nat by lia. subst. reflexivity.
  - change (set_last (x :: y :: t') v) with (x :: set_last (y :: t') v).
    destruct i as [| i'].
    + reflexivity.
    + simpl nth_error. rewrite IH by (simpl in *; lia).
      simpl length. replace (S (S (length t')) - 1)%nat with (S (length t')) by lia.
      replace (S (length t') - 1)%nat with (length t') by lia.
      reflexivity.
Qed.

Lemma seq_maps_nth_error (f : nat -> Q) (n i : nat) :
  (i < n)%nat -> nth_error (map f (seq 0 n)) i = Some (f i).
Proof.
  intro Hi. rewrite nth_error_map, nth_error_seq.
  destruct (Nat.ltb_spec i n); [reflexivity | lia].
Qed.

(** [np.linspace] with at least two samples: [num] samples, the [i]-th at
    [start + i * step], the last one [stop] itself. *)
Lemma np_linspace_spec (start stop : Q) (num : Z) :
  (2 <= num)%Z ->
  exists l,
    np_linspace start stop num = Ok l
    /\ length l = Z.to_nat num
    /\ forall i, (i < Z.to_nat num)%nat ->
         exists v, nth_error l i = Some v
           /\ v == start + inject_Z (Z.of_nat i)
                           * ((stop - start) / inject_Z (num - 1))
           /\ (i = (Z.to_nat num - 1)%nat -> v = stop).
Proof.
  intro Hnum. unfold np_linspace.
  destruct (Z.ltb_spec num 0); [lia |].
  destruct (Z.ltb_spec 0 (num - 1)); [| lia].
  destruct (Z.ltb_spec 1 num); [| lia].
  set (step := (stop - start) / inject_Z (num - 1)).
  set (f := fun i : nat => inject_Z (Z.of_nat i) * step + start).
  assert (Hbody :
    map (fun v => v + start)
      (map (fun v => v * step)
         (map (fun i => inject_Z (Z.of_nat i)) (seq 0 (Z.to_nat num))))
    = map f (seq 0 (Z.to_nat num))).
  { rewrite !map_map. reflexivity. }
  rewrite Hbody.
  eexists. split; [reflexivity |].
  assert (Hlen : length (map f (seq 0 (Z.to_nat num))) = Z.to_nat num)
    by (rewrite length_map, length_seq; reflexivity).
  split; [rewrite set_last_length; exact Hlen |].
  intros i Hi. rewrite set_last_nth_error by lia. rewrite Hlen.
  destruct (Nat.eqb_spec i (Z.to_nat num - 1)) as [Hlast | Hnot].
  - exists stop. split; [reflexivity | split; [| reflexivity]].
    subst i. fold step.
    assert (Hn : inject_Z (Z.of_nat (Z.to_nat num - 1)) == inject_Z (num - 1)).
    { replace (Z.of_nat (Z.to_nat num - 1)) with (num - 1)%Z by lia. reflexivity. }
    rewrite Hn. unfold step.
    assert (Hpos : 0 < inject_Z (num - 1)).
    { change 0 with (inject_Z 0). rewrite <- Zlt_Qlt. lia. }
    field. lra.
  - exists (f i). split; [apply seq_maps_nth_error; exact Hi |].
    split; [unfold f; fold step; lra | intro; contradiction].
Qed.

(** The closed form of the grid over [[-m, m]]: every sample as a rational
    expression of its index. *)
Lemma symmetric_linspace_closed_form (m : Q) (num : Z) :
  (2 <= num)%Z ->
  exists grid,
    np_linspace (- m) m num = Ok grid
    /\ length grid = Z.to_nat num
    /\ nth (Z.to_nat num - 1) grid 0 = m
    /\ forall i, (i < Z.to_nat num)%nat ->
         nth i grid 0
         == - m + inject_Z (Z.of_nat i) * ((2 * m) / inject_Z (num - 1)).
Proof.
  intro Hnum.
  destruct (np_linspace_spec (- m) m num Hnum) as [grid [Hrun [Hlen Hnth]]].
  exists grid. split; [exact Hrun | split; [exact Hlen | split]].
  - destruct (Hnth (Z.to_nat num - 1)%nat) as [v [Hv [_ Hlast]]]; [lia |].
    rewrite (nth_error_nth _ _ 0 Hv). apply Hlast. reflexivity.
  - intros i Hi. destruct (Hnth i Hi) as [v [Hv [Hval _]]].
    rewrite (nth_error_nth _ _ 0 Hv). rewrite Hval.
    assert (Hpos : 0 < inject_Z (num - 1)).
    { change 0 with (inject_Z 0). rewrite <- Zlt_Qlt. lia. }
    assert (Hd : (m - - m) / inject_Z (num - 1) == (2 * m) / inject_Z (num - 1))
      by (field; lra).
    rewrite Hd. reflexivity.
Qed.

Section SymmetricGrid.

Variable m : Q.
Variable num : Z.
Hypothesis Hnum : (2 <= num)%Z.

Let step : Q := (2 * m) / inject_Z (num - 1).

Lemma grid_span : inject_Z (num - 1) * step == 2 * m.
Proof.
  unfold step. field.
  assert (0 < inject_Z (num - 1)); [| lra].
  change 0 with (inject_Z 0). rewrite <- Zlt_Qlt. lia.
Qed.

Lemma grid_step_sign : 0 <= m -> 0 <= step.
Proof.
  intro Hm. pose proof grid_span as Hs.
  assert (Hpos : 0 < inject_Z (num - 1)).
  { change 0 with (inject_Z 0). rewrite <- Zlt_Qlt. lia. }
  destruct (Qlt_le_dec step 0) as [Hneg | Hok]; [| exact Hok].
  nra.
Qed.

Lemma grid_step_positive : 0 < m -> 0 < step.
Proof.
  intro Hm. pose proof grid_span as Hs.
  assert (Hpos : 0 < inject_Z (num - 1)).
  { change 0 with (inject_Z 0). rewrite <- Zlt_Qlt. lia. }
  destruct (Qlt_le_dec 0 step) as [Hok | Hneg]; [exact Hok |].
  nra.
Qed.

Lemma grid_mirror_index (i : nat) :
  (i < Z.to_nat num)%nat ->
  inject_Z (Z.of_nat (Z.to_nat num - 1 - i))
  == inject_Z (num - 1) - inject_Z (Z.of_nat i).
Proof.
  intro Hi.
  replace (Z.of_nat (Z.to_nat num - 1 - i)) with (num - 1 - Z.of_nat i)%Z by lia.
  unfold Zminus. rewrite !inject_Z_plus, !inject_Z_opp. lra.
Qed.

(** The grid over [[-m, m]]: length, endpoints, symmetry and order. *)
Lemma symmetric_linspace :
  exists grid,
    np_linspace (- m) m num = Ok grid
    /\ length grid = Z.to_nat num
    /\ nth 0 grid 0 == - m
    /\ nth (Z.to_nat num - 1) grid 0 = m
    /\ (forall i, (i < Z.to_nat num)%nat ->
          nth i grid 0 == - nth (Z.to_nat num - 1 - i) grid 0)
    /\ (0 <= m -> forall i j, (i <= j < Z.to_nat num)%nat ->
          nth i grid 0 <= nth j grid 0)
    /\ (0 < m -> forall i j, (i < j < Z.to_nat num)%nat ->
          nth i grid 0 < nth j grid 0).
Proof.
  destruct (symmetric_linspace_closed_form m num Hnum)
    as [grid [Hrun [Hlen [Hlast Hnth]]]].
  fold step in Hnth.
  exists grid. split; [exact Hrun | split; [exact Hlen |]].
  split; [| split; [exact Hlast |]].
  - rewrite Hnth by lia. simpl Z.of_nat. change (inject_Z 0) with 0. lra.
  - split; [| split].
    + intros i Hi. rewrite (Hnth i Hi), (Hnth (Z.to_nat num - 1 - i)%nat) by lia.
      rewrite (grid_mirror_index i Hi). pose proof grid_span as Hs. nra.
    + intros Hm i j [Hij Hj]. rewrite (Hnth i), (Hnth j) by lia.
      pose proof (grid_step_sign Hm) as Hs.
      assert (Hle : inject_Z (Z.of_nat i) <= inject_Z (Z.of_nat j))
        by (rewrite <- Zle_Qle; lia).
      nra.
    + intros Hm i j [Hij Hj]. rewrite (Hnth i), (Hnth j) by lia.
      pose proof (grid_step_positive Hm) as Hs.
      assert (Hlt : inject_Z (Z.of_nat i) < inject_Z (Z.of_nat j))
        by (rewrite <- Zlt_Qlt; lia).
      nra.
Qed.

End SymmetricGrid.

Lemma scenario_half_width_nonneg {L : NumericLib} (cp strike iv t : Q) :
  0 < cp -> 0 <= scenario_half_width cp strike iv t.
Proof.
  intro Hcp. unfold scenario_half_width.
  eapply Qle_trans; [| apply py_max_lub_r].
  assert (Hsd : 0 <= Qabs (strike - cp) / cp).
  { apply Qle_shift_div_l; [exact Hcp |].
    pose proof (Qabs_nonneg (strike - cp)). lra. }
  lra.
Qed.

Lemma generate_price_scenarios_linspace {L : NumericLib}
    (cp strike iv t : Q) (num : Z) :
  ~ cp == 0 ->
  generate_price_scenarios cp strike iv t num
  = np_linspace (- scenario_half_width cp strike iv t)
      (scenario_half_width cp strike iv t) num.
Proof.
  intro Hcp. unfold generate_price_scenarios, py_div.
  destruct (Qeq_bool cp 0) eqn:E; cmp_cases; [contradiction |].
  reflexivity.
Qed.



(** The grid of the witness, evaluated: five samples from -0.9 to 0.9. *)
Example generated_grid_sample :
  option_map (map Qred)
    (match generate_price_scenarios (L := RationalLib.lib) 100 110 0.30 365 5 with
     | Ok grid => Some grid
     | Raise _ => None
     end)
  = Some [- (9 # 10); - (9 # 20); 0; 9 # 20; 9 # 10].
Proof. vm_compute. reflexivity. Qed.

(** ** The probability estimate *)

(** C6.  When the time to expiry is not positive, the probability is 1 if
    the direction is up and the price is above the strike, or the direction is
    down and the price is below the strike, and 0 otherwise; at the strike it
    is 0 for both directions. *)
Theorem probability_at_expiry {L : NumericLib}
    (cp strike iv t : Q) (direction : string) :
  t <= 0 ->
  ((direction = "up" /\ strike < cp) \/ (direction = "down" /\ cp < strike) ->
   calculate_probability_itm cp strike iv t direction = Ok (Fin 1))
  /\ (~ ((direction = "up" /\ strike < cp) \/ (direction = "down" /\ cp < strike)) ->
      calculate_probability_itm cp strike iv t direction = Ok (Fin 0))
  /\ (cp == strike ->
      calculate_probability_itm cp strike iv t direction = Ok (Fin 0)).
Proof.
  intro Ht. unfold calculate_probability_itm.
  apply Qle_bool_iff in Ht. rewrite Ht.
  split; [| split].
  - intros [[Hd Hlt] | [Hd Hlt]]; subst direction;
      apply Qltb_true in Hlt; rewrite Hlt; simpl; rewrite ?orb_true_r;
      reflexivity.
  - intro Hno.
    destruct (String.eqb_spec direction "up") as [Hu | Hu];
      destruct (String.eqb_spec direction "down") as [Hd | Hd];
      destruct (Qltb strike cp) eqn:E1; destruct (Qltb cp strike) eqn:E2;
      cmp_cases; simpl; try reflexivity; exfalso; apply Hno; auto.
  - intro Heq.
    assert (E1 : Qltb strike cp = false) by (apply Qltb_false; lra).
    assert (E2 : Qltb cp strike = false) by (apply Qltb_false; lra).
    rewrite E1, E2, !andb_false_r. reflexivity.
Qed.

Lemma probability_at_expiry_witness :
  ((("up" = "up" /\ 100 < 105) \/ ("up" = "down" /\ 105 < 100) ->
    calculate_probability_itm (L := RationalLib.lib) 105 100 0.30 0 "up"
    = Ok (Fin 1))
   /\ (~ (("up" = "up" /\ 100 < 105) \/ ("up" = "down" /\ 105 < 100)) ->
       calculate_probability_itm (L := RationalLib.lib) 105 100 0.30 0 "up"
       = Ok (Fin 0))
   /\ (105 == 100 ->
       calculate_probability_itm (L := RationalLib.lib) 105 100 0.30 0 "up"
       = Ok (Fin 0))).
Proof.
  apply probability_at_expiry. by_evaluation.
Defined.

(** ** Nearest-index search *)

Lemma argmin_from_first_min (l pre : list Q) (best : Q) (bi : nat) :
  first_min pre bi ->
  nth bi pre 0 = best ->
  first_min (pre ++ l)%list (argmin_from l (length pre) best bi).
Proof.
  revert pre best bi.
  induction l as [| y t IH]; intros pre best bi Hmin Hbest.
  - rewrite app_nil_r. exact Hmin.
  - destruct Hmin as [Hbi [Hle Hlt]]. simpl argmin_from.
    replace (pre ++ y :: t)%list with ((pre ++ [y]) ++ t)%list
      by (rewrite <- app_assoc; reflexivity).
    replace (S (length pre)) with (length (pre ++ [y])%list)
      by (rewrite length_app; simpl; lia).
    destruct (Qltb y best) eqn:E; cmp_cases.
    + apply IH.
      * repeat split.
        -- rewrite length_app. simpl. lia.
        -- intros j Hj. rewrite length_app in Hj. simpl in Hj.
           rewrite nth_middle.
           destruct (Nat.eq_dec j (length pre)) as [-> | Hne].
           ++ rewrite nth_middle. lra.
           ++ rewrite app_nth1 by lia.
              specialize (Hle j ltac:(lia)). rewrite Hbest in Hle. lra.
        -- intros j Hj. rewrite nth_middle, app_nth1 by lia.
           specialize (Hle j Hj). rewrite Hbest in Hle. lra.
      * apply nth_middle.
    + apply IH.
      * repeat split.
        -- rewrite length_app. simpl. lia.
        -- intros j Hj. rewrite length_app in Hj. simpl in Hj.
           rewrite (app_nth1 pre [y] 0 Hbi).
           destruct (Nat.eq_dec j (length pre)) as [-> | Hne].
           ++ rewrite nth_middle, Hbest. exact E.
           ++ rewrite app_nth1 by lia. apply Hle. lia.
        -- intros j Hj. rewrite !app_nth1 by lia. apply Hlt. exact Hj.
      * rewrite app_nth1 by lia. exact Hbest.
Qed.

Lemma np_argmin_first_min (d : list Q) :
  d <> [] -> exists k, np_argmin d = Ok k /\ first_min d k.
Proof.
  destruct d as [| x t]; [congruence |]. intros _.
  exists (argmin_from t 1 x 0). split; [reflexivity |].
  apply (argmin_from_first_min t [x] x 0); [| reflexivity].
  repeat split; simpl; try lia.
  intros j Hj. assert (j = 0)%nat by lia. subst. simpl. lra.
Qed.

Lemma first_min_nearest (grid : list Q) (f : Q -> Q) (target : Q) (k : nat) :
  (forall pc, f pc == Qabs (pc - target)) ->
  first_min (map f grid) k ->
  nearest_index grid target k.
Proof.
  intros Hf [Hk [Hle Hlt]]. rewrite length_map in *.
  assert (Hnth : forall j, (j < length grid)%nat ->
                   nth j (map f grid) 0 == Qabs (nth j grid 0 - target)).
  { intros j Hj. rewrite (nth_indep _ 0 (f 0)) by (rewrite length_map; exact Hj).
    rewrite map_nth. apply Hf. }
  repeat split.
  - exact Hk.
  - intros j Hj. rewrite <- !Hnth by assumption. apply Hle. exact Hj.
  - intros j Hj. rewrite <- !Hnth by lia. apply Hlt. exact Hj.
Qed.

(** ** The scenario sweep *)

Section Sweep.

Context {L : NumericLib}.

Lemma grid_half_width_ok (bp : BinaryOptionParams) (hp : HedgeParams) :
  ~ current_price bp == 0 ->
  grid_half_width bp hp
  = Ok (let base :=
          scenario_half_width (current_price bp) (strike_price bp)
            (implied_volatility bp) (time_to_expiry bp) in
        if Qltb 1 (leverage hp) then py_max base (1.5 / leverage hp)
        else base).
Proof.
  intro Hcp. unfold grid_half_width, py_div.
  destruct (Qeq_bool (current_price bp) 0) eqn:E; cmp_cases; [contradiction |].
  reflexivity.
Qed.

Lemma grid_half_width_raises (bp : BinaryOptionParams) (hp : HedgeParams) :
  current_price bp == 0 ->
  grid_half_width bp hp = Raise ZeroDivisionError.
Proof.
  intro Hcp. unfold grid_half_width, py_div.
  apply Qeq_bool_iff in Hcp. rewrite Hcp. reflexivity.
Qed.

Lemma calculate_probability_itm_ok (cp strike iv t : Q) (direction : string) :
  t <= 0 \/ cp == strike \/ ~ strike == 0 ->
  exists p, calculate_probability_itm cp strike iv t direction = Ok p.
Proof.
  intro H. unfold calculate_probability_itm, py_div.
  destruct (Qle_bool t 0) eqn:Et; [eexists; reflexivity |].
  destruct (Qeq_bool cp strike) eqn:Ec; [eexists; reflexivity |].
  destruct (Qeq_bool strike 0) eqn:Es; [| eexists; reflexivity].
  cmp_cases. destruct H as [H | [H | H]]; [lra | contradiction | contradiction].
Qed.

(** What a successful run has computed. *)
Lemma simulate_scenarios_inv (bp : BinaryOptionParams) (hp : HedgeParams)
    (direction : string) (num : Z) (r : Results) :
  simulate_scenarios bp hp direction num = Ok r ->
  exists m prob up_idx down_idx,
    grid_half_width bp hp = Ok m
    /\ np_linspace (- m) m num = Ok (res_price_changes r)
    /\ calculate_probability_itm (current_price bp) (strike_price bp)
         (implied_volatility bp) (time_to_expiry bp) direction = Ok prob
    /\ res_realistic_probability r = prob
    /\ res_total_pnl r = map (total_pnl_at bp hp direction) (res_price_changes r)
    /\ res_binary_pnl r = map (binary_pnl_at bp direction) (res_price_changes r)
    /\ res_hedge_pnl r = map (calculate_hedge_pnl hp) (res_price_changes r)
    /\ np_max (res_total_pnl r) = Ok (res_max_profit r)
    /\ np_min (res_total_pnl r) = Ok (res_max_loss r)
    /\ res_break_even_points r
       = break_even_scan (res_price_changes r) (res_total_pnl r)
    /\ np_argmin (map (fun pc => Qabs (pc - expected_move_pct bp))
                    (res_price_changes r)) = Ok up_idx
    /\ np_argmin (map (fun pc => Qabs (pc + expected_move_pct bp))
                    (res_price_changes r)) = Ok down_idx
    /\ res_expected_value r
       = xadd (xmul prob (Fin (nth up_idx (res_total_pnl r) 0)))
              (xmul (xsub (Fin 1) prob) (Fin (nth down_idx (res_total_pnl r) 0))).
Proof.
  unfold simulate_scenarios, bind. fold (expected_move_pct bp).
  destruct (grid_half_width bp hp) as [m | e]; [| discriminate].
  destruct (np_linspace (- m) m num) as [grid | e] eqn:Hgrid; [| discriminate].
  destruct (calculate_probability_itm _ _ _ _ direction) as [prob | e];
    [| discriminate].
  destruct (np_max _) as [mx | e] eqn:Hmax; [| discriminate].
  destruct (np_min _) as [mn | e] eqn:Hmin; [| discriminate].
  destruct (np_argmin (map (fun pc => Qabs (pc - _)) grid)) as [ui | e] eqn:Hup;
    [| discriminate].
  destruct (np_argmin (map (fun pc => Qabs (pc + _)) grid)) as [di | e] eqn:Hdn;
    [| discriminate].
  intro Hr. injection Hr as <-. cbn [res_price_changes res_total_pnl
    res_binary_pnl res_hedge_pnl res_max_profit res_max_loss
    res_break_even_points res_expected_value res_realistic_probability].
  exists m, prob, ui, di. repeat (split; [first [reflexivity | assumption] |]).
  reflexivity.
Qed.

(** A run goes through once the half-width and the probability are
    computed and the grid is not empty. *)
Lemma simulate_scenarios_runs (bp : BinaryOptionParams) (hp : HedgeParams)
    (direction : string) (num : Z) (m : Q) (grid : list Q) (prob : npfloat) :
  grid_half_width bp hp = Ok m ->
  np_linspace (- m) m num = Ok grid ->
  grid <> [] ->
  calculate_probability_itm (current_price bp) (strike_price bp)
    (implied_volatility bp) (time_to_expiry bp) direction = Ok prob ->
  exists r, simulate_scenarios bp hp direction num = Ok r.
Proof.
  intros Hm Hgrid Hne Hprob. unfold simulate_scenarios, bind.
  rewrite Hm, Hgrid, Hprob.
  destruct grid as [| x t]; [congruence |].
  cbn [map np_max np_min np_argmin]. eexists. reflexivity.
Qed.

End Sweep.

Lemma np_linspace_length (start stop : Q) (num : Z) :
  (0 <= num)%Z ->
  exists l, np_linspace start stop num = Ok l /\ length l = Z.to_nat num.
Proof.
  intro Hnum. unfold np_linspace.
  destruct (Z.ltb_spec num 0); [lia |].
  eexists. split; [reflexivity |].
  assert (Hlen : forall f g : Q -> Q,
             length (map g (map f (map (fun i => inject_Z (Z.of_nat i))
                                       (seq 0 (Z.to_nat num)))))
             = Z.to_nat num)
    by (intros; rewrite !length_map, length_seq; reflexivity).
  destruct (0 <? num - 1)%Z; destruct (1 <? num)%Z;
    rewrite ?set_last_length; apply Hlen.
Qed.

Lemma np_linspace_negative (start stop : Q) (num : Z) :
  (num < 0)%Z -> np_linspace start stop num = Raise ValueError.
Proof.
  intro Hnum. unfold np_linspace.
  destruct (Z.ltb_spec num 0); [reflexivity | lia].
Qed.

Lemma liquidation_range_beyond_point (l : Q) :
  1 < l -> 1 / l < 1.5 / l.
Proof.
  intro Hl.
  assert (H1 : (1 / l) * l == 1) by (apply Qdiv_mult_cancel; lra).
  assert (H2 : (1.5 / l) * l == 1.5) by (apply Qdiv_mult_cancel; lra).
  set (a := 1 / l) in *. set (b := 1.5 / l) in *.
  assert (H3 : (b - a) * l == b * l - a * l) by ring.
  assert (H4 : b * l - a * l == 1 # 2) by (rewrite H1, H2; reflexivity).
  rewrite H4 in H3.
  destruct (Qlt_le_dec a b) as [Hlt | Hge]; [exact Hlt |].
  assert (H5 : (b - a) * l <= 0) by nra.
  rewrite H3 in H5. exfalso. revert H5. apply Qlt_not_le. reflexivity.
Qed.

(** A run on a non-zero price with at least one grid point and a computable
    probability returns a result, whatever the other parameters. *)
Lemma simulate_scenarios_succeeds {L : NumericLib}
    (bp : BinaryOptionParams) (hp : HedgeParams) (direction : string) (num : Z) :
  ~ current_price bp == 0 ->
  (1 <= num)%Z ->
  time_to_expiry bp <= 0 \/ current_price bp == strike_price bp
    \/ ~ strike_price bp == 0 ->
  exists r m,
    simulate_scenarios bp hp direction num = Ok r
    /\ grid_half_width bp hp = Ok m
    /\ np_linspace (- m) m num = Ok (res_price_changes r)
    /\ length (res_price_changes r) = Z.to_nat num.
Proof.
  intros Hcp Hnum Hprob.
  pose proof (grid_half_width_ok bp hp Hcp) as Hm0.
  destruct (grid_half_width bp hp) as [m | e] eqn:Hm; [clear Hm0 | discriminate].
  destruct (np_linspace_length (- m) m num ltac:(lia)) as [grid [Hgrid Hlen]].
  destruct (calculate_probability_itm_ok (current_price bp) (strike_price bp)
              (implied_volatility bp) (time_to_expiry bp) direction Hprob)
    as [prob Hp].
  assert (Hne : grid <> []).
  { intro Hnil. subst grid. simpl in Hlen. lia. }
  destruct (simulate_scenarios_runs bp hp direction num m grid prob
              Hm Hgrid Hne Hp) as [r Hr].
  exists r, m. split; [exact Hr |].
  destruct (simulate_scenarios_inv bp hp direction num r Hr)
    as [m' [prob' [ui [di [Hm' [Hgrid' _]]]]]].
  rewrite Hm in Hm'. injection Hm' as <-.
  rewrite Hgrid in Hgrid'. injection Hgrid' as <-.
  split; [reflexivity | split; [exact Hgrid | exact Hlen]].
Qed.

(** C4.  In a simulation run with leverage above 1 (valid prices, at least
    two grid points) the half-width of the grid is the maximum of
    [3 * expected_move / current_price], [1.5 * strike_distance_pct] and
    [1.5 / leverage]; the grid runs from minus to plus that half-width, so
    both [-1/leverage] and [+1/leverage] lie strictly between its first and
    last points. *)
Theorem leverage_extends_grid {L : NumericLib}
    (bp : BinaryOptionParams) (hp : HedgeParams) (direction : string) (num : Z) :
  0 < current_price bp -> 0 < strike_price bp -> 0 <= time_to_expiry bp ->
  1 < leverage hp ->
  (2 <= num)%Z ->
  exists r,
    simulate_scenarios bp hp direction num = Ok r
    /\ grid_half_width bp hp
       = Ok (py_max
               (py_max (3 * (calculate_expected_move (current_price bp)
                               (implied_volatility bp) (time_to_expiry bp)
                             / current_price bp))
                       (Qabs (strike_price bp - current_price bp)
                        / current_price bp * 1.5))
               (1.5 / leverage hp))
    /\ (forall m, grid_half_width bp hp = Ok m ->
          length (res_price_changes r) = Z.to_nat num
          /\ nth 0 (res_price_changes r) 0 == - m
          /\ nth (Z.to_nat num - 1) (res_price_changes r) 0 = m
          /\ nth 0 (res_price_changes r) 0 < - (1 / leverage hp)
          /\ 1 / leverage hp < nth (Z.to_nat num - 1) (res_price_changes r) 0).
Proof.
  intros Hcp Hstrike _ Hlev Hnum.
  assert (Hcp0 : ~ current_price bp == 0) by lra.
  destruct (simulate_scenarios_succeeds bp hp direction num Hcp0 ltac:(lia))
    as [r [m [Hr [Hm [Hgrid Hlen]]]]].
  { right. right. lra. }
  exists r. split; [exact Hr |].
  pose proof (grid_half_width_ok bp hp Hcp0) as Hw.
  apply Qltb_true in Hlev. cbv zeta in Hw. rewrite Hlev in Hw.
  apply Qltb_true in Hlev.
  split; [exact Hw |].
  intros m' Hm'. rewrite Hm in Hm'. injection Hm' as <-.
  destruct (symmetric_linspace m num Hnum)
    as [grid [Hrun [_ [Hfirst [Hlast _]]]]].
  rewrite Hgrid in Hrun. injection Hrun as <-.
  assert (Hwide : 1 / leverage hp < m).
  { rewrite Hm in Hw. injection Hw as ->.
    eapply Qlt_le_trans; [apply liquidation_range_beyond_point; exact Hlev |].
    apply py_max_lub_r. }
  repeat split; try assumption.
  - rewrite Hfirst. lra.
  - rewrite Hlast. exact Hwide.
Qed.

Lemma leverage_extends_grid_witness :
  exists r,
    simulate_scenarios (L := RationalLib.lib) (option_at_strike 365)
      (hedge_500 10 "long" false) "up" 5 = Ok r
    /\ grid_half_width (L := RationalLib.lib) (option_at_strike 365)
         (hedge_500 10 "long" false)
       = Ok (py_max
               (py_max (3 * (calculate_expected_move (L := RationalLib.lib)
                               (current_price (option_at_strike 365))
                               (implied_volatility (option_at_strike 365))
                               (time_to_expiry (option_at_strike 365))
                             / current_price (option_at_strike 365)))
                       (Qabs (strike_price (option_at_strike 365)
                              - current_price (option_at_strike 365))
                        / current_price (option_at_strike 365) * 1.5))
               (1.5 / leverage (hedge_500 10 "long" false)))
    /\ (forall m,
          grid_half_width (L := RationalLib.lib) (option_at_strike 365)
            (hedge_500 10 "long" false) = Ok m ->
          length (res_price_changes r) = Z.to_nat 5
          /\ nth 0 (res_price_changes r) 0 == - m
          /\ nth (Z.to_nat 5 - 1) (res_price_changes r) 0 = m
          /\ nth 0 (res_price_changes r) 0
             < - (1 / leverage (hedge_500 10 "long" false))
          /\ 1 / leverage (hedge_500 10 "long" false)
             < nth (Z.to_nat 5 - 1) (res_price_changes r) 0).
Proof.
  apply leverage_extends_grid;
    [by_evaluation | by_evaluation | by_evaluation | by_evaluation | lia].
Defined.

(** The grid of that run, evaluated: the volatility term 0.9 exceeds
    [1.5 / 10], and the liquidation point -0.1 is inside. *)
Example leveraged_grid_sample :
  exists r,
    simulate_scenarios (L := RationalLib.lib) (option_at_strike 365)
      (hedge_500 10 "long" false) "up" 5 = Ok r
    /\ map Qred (res_price_changes r)
       = [- (9 # 10); - (9 # 20); 0; 9 # 20; 9 # 10]
    /\ res_liquidation_long r = Some (- (100.0) / 10 / 100.0)
    /\ res_liquidation_short r = None.
Proof.
  eexists. split; [vm_compute; reflexivity |].
  repeat split; vm_compute; reflexivity.
Qed.

(** The spec's worked scenario (price and strike 100, payouts 1.6 and 1.2 on
    1000, a 500 short hedge at leverage 1 without fees, betting up): at +5%
    the bet wins 600 and the hedge loses 25; at -5% the bet loses 1000 and
    the hedge gains 25. *)
Example worked_scenario :
  binary_pnl_at (option_at_strike 7) "up" 0.05 == 600
  /\ calculate_hedge_pnl (hedge_500 1 "short" false) 0.05 == - (25)
  /\ total_pnl_at (option_at_strike 7) (hedge_500 1 "short" false) "up" 0.05
     == 575
  /\ binary_pnl_at (option_at_strike 7) "up" (- 0.05) == - (1000)
  /\ calculate_hedge_pnl (hedge_500 1 "short" false) (- 0.05) == 25
  /\ total_pnl_at (option_at_strike 7) (hedge_500 1 "short" false) "up" (- 0.05)
     == - (975).
Proof. repeat split; by_evaluation. Qed.

(** C7.  Two option records that differ only in [probability_up] give the
    same outcome, field for field, under the same hedge, direction and grid
    size. *)
Theorem probability_up_is_unused {L : NumericLib}
    (bp1 bp2 : BinaryOptionParams) (hp : HedgeParams)
    (direction : string) (num : Z) :
  same_except_probability_up bp1 bp2 ->
  simulate_scenarios bp1 hp direction num
  = simulate_scenarios bp2 hp direction num.
Proof.
  destruct bp1 as [cp1 k1 pu1 pd1 inv1 p1 iv1 t1].
  destruct bp2 as [cp2 k2 pu2 pd2 inv2 p2 iv2 t2].
  unfold same_except_probability_up. simpl.
  intros [-> [-> [-> [-> [-> [-> ->]]]]]].
  reflexivity.
Qed.

Lemma probability_up_is_unused_witness :
  simulate_scenarios (L := RationalLib.lib)
    (mkBinaryOptionParams 100 100 1.6 1.2 1000 0.5 0.30 365)
    (hedge_500 10 "short" true) "up" 100
  = simulate_scenarios (L := RationalLib.lib)
      (mkBinaryOptionParams 100 100 1.6 1.2 1000 0.9 0.30 365)
      (hedge_500 10 "short" true) "up" 100.
Proof.
  apply probability_up_is_unused.
  unfold same_except_probability_up. simpl. repeat split; reflexivity.
Defined.




(** ** The break-even scan *)

Lemma crossing_cases (y0 y1 : Q) :
  crossing y0 y1 = true <-> (y0 <= 0 /\ 0 < y1) \/ (0 <= y0 /\ y1 < 0).
Proof.
  unfold crossing. rewrite orb_true_iff, !andb_true_iff.
  rewrite !Qle_bool_iff, !Qltb_true. reflexivity.
Qed.

Lemma crossing_denominator (y0 y1 : Q) :
  crossing y0 y1 = true -> ~ y1 - y0 == 0.
Proof.
  intro H. apply crossing_cases in H. destruct H as [[H0 H1] | [H0 H1]]; lra.
Qed.

(** The interpolation weight of a crossing pair lies in [[0, 1)]. *)
Lemma crossing_weight (y0 y1 : Q) :
  crossing y0 y1 = true ->
  0 <= - y0 / (y1 - y0) /\ - y0 / (y1 - y0) < 1.
Proof.
  intro H. pose proof (crossing_denominator y0 y1 H) as Hd.
  apply crossing_cases in H.
  assert (Hw : (- y0 / (y1 - y0)) * (y1 - y0) == - y0)
    by (apply Qdiv_mult_cancel; exact Hd).
  set (w := - y0 / (y1 - y0)) in *.
  destruct H as [[H0 H1] | [H0 H1]].
  - split.
    + destruct (Qlt_le_dec w 0) as [Hneg | Hok]; [| exact Hok]. nra.
    + destruct (Qlt_le_dec w 1) as [Hok | Hbig]; [exact Hok |]. nra.
  - split.
    + destruct (Qlt_le_dec w 0) as [Hneg | Hok]; [| exact Hok]. nra.
    + destruct (Qlt_le_dec w 1) as [Hok | Hbig]; [exact Hok |]. nra.
Qed.

Lemma be_price_of_crossing (x0 x1 y0 y1 : Q) :
  crossing y0 y1 = true ->
  exists b,
    be_price x0 x1 y0 y1 = Fin b
    /\ b == x0 + (x1 - x0) * (- y0 / (y1 - y0))
    /\ (x0 <= x1 -> x0 <= b /\ b <= x1)
    /\ (x1 <= x0 -> x1 <= b /\ b <= x0).
Proof.
  intro H. pose proof (crossing_denominator y0 y1 H) as Hd.
  destruct (crossing_weight y0 y1 H) as [Hw0 Hw1].
  unfold be_price, np_divide.
  destruct (Qeq_bool (y1 - y0) 0) eqn:E; cmp_cases; [contradiction |].
  cbn [xmul xadd]. eexists. split; [reflexivity |].
  set (w := - y0 / (y1 - y0)) in *.
  split; [reflexivity |]. split; intro Hx; split; nra.
Qed.

Lemma break_even_scan_pairs (xs ys : list Q) (be : npfloat) :
  In be (break_even_scan xs ys) ->
  exists i x0 x1 y0 y1,
    nth_error xs i = Some x0 /\ nth_error xs (S i) = Some x1
    /\ nth_error ys i = Some y0 /\ nth_error ys (S i) = Some y1
    /\ crossing y0 y1 = true
    /\ be = be_price x0 x1 y0 y1.
Proof.
  revert ys. induction xs as [| x0 xs' IH]; intros ys Hin; [contradiction |].
  destruct xs' as [| x1 xs'']; [destruct ys; contradiction |].
  destruct ys as [| y0 ys']; [contradiction |].
  destruct ys' as [| y1 ys'']; [contradiction |].
  change (break_even_scan (x0 :: x1 :: xs'') (y0 :: y1 :: ys''))
    with (if crossing y0 y1
          then be_price x0 x1 y0 y1 :: break_even_scan (x1 :: xs'') (y1 :: ys'')
          else break_even_scan (x1 :: xs'') (y1 :: ys'')) in Hin.
  assert (Htail : In be (break_even_scan (x1 :: xs'') (y1 :: ys'')) ->
                  exists i a0 a1 b0 b1,
                    nth_error (x0 :: x1 :: xs'') i = Some a0
                    /\ nth_error (x0 :: x1 :: xs'') (S i) = Some a1
                    /\ nth_error (y0 :: y1 :: ys'') i = Some b0
                    /\ nth_error (y0 :: y1 :: ys'') (S i) = Some b1
                    /\ crossing b0 b1 = true
                    /\ be = be_price a0 a1 b0 b1).
  { intro Hrest. destruct (IH _ Hrest) as [i [a0 [a1 [b0 [b1 H]]]]].
    exists (S i), a0, a1, b0, b1. exact H. }
  destruct (crossing y0 y1) eqn:Hc; [| exact (Htail Hin)].
  destruct Hin as [Hhere | Hrest]; [| exact (Htail Hrest)].
  exists 0%nat, x0, x1, y0, y1. simpl. repeat split; auto.
Qed.

Lemma grid_half_width_nonneg {L : NumericLib}
    (bp : BinaryOptionParams) (hp : HedgeParams) (m : Q) :
  0 < current_price bp -> grid_half_width bp hp = Ok m -> 0 <= m.
Proof.
  intros Hcp Hm. rewrite grid_half_width_ok in Hm by lra.
  injection Hm as <-. cbv zeta.
  pose proof (scenario_half_width_nonneg (current_price bp) (strike_price bp)
                (implied_volatility bp) (time_to_expiry bp) Hcp) as Hbase.
  destruct (Qltb 1 (leverage hp)); [| exact Hbase].
  eapply Qle_trans; [exact Hbase | apply py_max_lub_l].
Qed.

(** Consecutive points of the simulated grid are in increasing order. *)
Lemma simulated_grid_increasing {L : NumericLib}
    (bp : BinaryOptionParams) (hp : HedgeParams) (direction : string) (num : Z)
    (r : Results) (i : nat) (x0 x1 : Q) :
  0 < current_price bp ->
  simulate_scenarios bp hp direction num = Ok r ->
  nth_error (res_price_changes r) i = Some x0 ->
  nth_error (res_price_changes r) (S i) = Some x1 ->
  x0 <= x1.
Proof.
  intros Hcp Hr H0 H1.
  destruct (simulate_scenarios_inv bp hp direction num r Hr)
    as [m [_ [_ [_ [Hm [Hgrid _]]]]]].
  pose proof (grid_half_width_nonneg bp hp m Hcp Hm) as Hm0.
  assert (Hnum0 : (0 <= num)%Z).
  { destruct (Z.lt_ge_cases num 0) as [Hneg | Hok]; [| exact Hok].
    rewrite np_linspace_negative in Hgrid by exact Hneg. discriminate. }
  destruct (np_linspace_length (- m) m num Hnum0) as [g [Hg Hlen]].
  rewrite Hgrid in Hg. injection Hg as <-.
  assert (Hi : (S i < length (res_price_changes r))%nat)
    by (apply nth_error_Some; congruence).
  assert (Hnum : (2 <= num)%Z) by lia.
  destruct (symmetric_linspace m num Hnum)
    as [g [Hg [_ [_ [_ [_ [Hmono _]]]]]]].
  rewrite Hgrid in Hg. injection Hg as <-.
  rewrite <- (nth_error_nth _ _ 0 H0), <- (nth_error_nth _ _ 0 H1).
  apply Hmono; [exact Hm0 | lia].
Qed.

(** C10.  Whenever the crossing test holds for a consecutive pair, the
    denominator [total_pnl[i+1] - total_pnl[i]] is not zero; every break-even
    the scan issues is therefore a finite number, the interpolation
    [x_i + (x_{i+1} - x_i) * (-y_i / (y_{i+1} - y_i))] of a crossing pair, and
    it lies between the two grid points of that pair.  In a simulation run
    (positive current price) these are consecutive grid points in increasing
    order. *)
Theorem break_even_division_is_safe :
  (forall y0 y1 : Q, crossing y0 y1 = true -> ~ y1 - y0 == 0)
  /\ (forall (xs ys : list Q) (be : npfloat),
         In be (break_even_scan xs ys) ->
         exists i x0 x1 y0 y1 b,
           nth_error xs i = Some x0 /\ nth_error xs (S i) = Some x1
           /\ nth_error ys i = Some y0 /\ nth_error ys (S i) = Some y1
           /\ crossing y0 y1 = true
           /\ be = Fin b
           /\ b == x0 + (x1 - x0) * (- y0 / (y1 - y0))
           /\ (x0 <= x1 -> x0 <= b /\ b <= x1)
           /\ (x1 <= x0 -> x1 <= b /\ b <= x0))
  /\ (forall (L : NumericLib) (bp : BinaryOptionParams) (hp : HedgeParams)
             (direction : string) (num : Z) (r : Results) (be : npfloat),
         0 < current_price bp ->
         simulate_scenarios bp hp direction num = Ok r ->
         In be (res_break_even_points r) ->
         exists i b,
           (S i < length (res_price_changes r))%nat
           /\ crossing (nth i (res_total_pnl r) 0) (nth (S i) (res_total_pnl r) 0)
              = true
           /\ be = Fin b
           /\ nth i (res_price_changes r) 0 <= b
           /\ b <= nth (S i) (res_price_changes r) 0).
Proof.
  assert (Hscan : forall (xs ys : list Q) (be : npfloat),
             In be (break_even_scan xs ys) ->
             exists i x0 x1 y0 y1 b,
               nth_error xs i = Some x0 /\ nth_error xs (S i) = Some x1
               /\ nth_error ys i = Some y0 /\ nth_error ys (S i) = Some y1
               /\ crossing y0 y1 = true
               /\ be = Fin b
               /\ b == x0 + (x1 - x0) * (- y0 / (y1 - y0))
               /\ (x0 <= x1 -> x0 <= b /\ b <= x1)
               /\ (x1 <= x0 -> x1 <= b /\ b <= x0)).
  { intros xs ys be Hin.
    destruct (break_even_scan_pairs xs ys be Hin)
      as [i [x0 [x1 [y0 [y1 [Hx0 [Hx1 [Hy0 [Hy1 [Hc ->]]]]]]]]]].
    destruct (be_price_of_crossing x0 x1 y0 y1 Hc) as [b [Hb [Hval [Hup Hdn]]]].
    exists i, x0, x1, y0, y1, b. repeat split; auto; try (apply Hup; assumption);
      apply Hdn; assumption. }
  split; [exact crossing_denominator | split; [exact Hscan |]].
  intros L bp hp direction num r be Hcp Hr Hin.
  destruct (simulate_scenarios_inv bp hp direction num r Hr)
    as (m & prob & ui & di & _ & _ & _ & _ & _ & _ & _ & _ & _ & Hbe & _).
  rewrite Hbe in Hin.
  destruct (Hscan _ _ _ Hin)
    as (i & x0 & x1 & y0 & y1 & b & Hx0 & Hx1 & Hy0 & Hy1 & Hc & -> & _ & Hup & _).
  exists i, b.
  rewrite (nth_error_nth _ _ 0 Hx0), (nth_error_nth _ _ 0 Hx1),
    (nth_error_nth _ _ 0 Hy0), (nth_error_nth _ _ 0 Hy1).
  pose proof (simulated_grid_increasing bp hp direction num r i x0 x1
                Hcp Hr Hx0 Hx1) as Hord.
  repeat split; try (apply Hup; exact Hord); auto.
  apply nth_error_Some. congruence.
Qed.

Lemma break_even_division_is_safe_witness :
  ~ 10 - - (10) == 0.
Proof.
  apply (proj1 break_even_division_is_safe). by_evaluation.
Defined.

(** The spec's interpolation example: P&L -10 and 10 at price changes -0.1 and
    0.1 give the break-even 0. *)
Example break_even_linear_segment :
  exists b, be_price (- 0.1) 0.1 (- (10)) 10 = Fin b /\ b == 0.
Proof. eexists. split; [vm_compute; reflexivity | reflexivity]. Qed.

(** ** The expected value *)

(** On valid prices with a defined volatility term the estimate is a finite
    probability. *)
Lemma calculate_probability_itm_finite {L : NumericLib}
    (bp : BinaryOptionParams) (direction : string) :
  cdf_is_probability L ->
  0 < current_price bp -> 0 < strike_price bp ->
  volatility_term_defined bp ->
  exists p,
    calculate_probability_itm (current_price bp) (strike_price bp)
      (implied_volatility bp) (time_to_expiry bp) direction = Ok (Fin p)
    /\ 0 <= p /\ p <= 1.
Proof.
  intros Hcdf Hcp Hk Hvol. unfold calculate_probability_itm.
  destruct (Qle_bool (time_to_expiry bp) 0) eqn:Et.
  - eexists. split; [reflexivity |].
    destruct (_ || _); split; lra.
  - assert (Hout : forall d,
              exists p,
                Ok (if String.eqb direction "up" then norm_cdf_x (Fin d)
                    else xsub (Fin 1) (norm_cdf_x (Fin d))) = Ok (Fin p)
                /\ 0 <= p /\ p <= 1).
    { intro d. destruct (Hcdf d) as [H0 H1]. cbn [norm_cdf_x xsub xopp xadd].
      destruct (String.eqb direction "up"); eexists;
        (split; [reflexivity |]); split; lra. }
    destruct (Qeq_bool (current_price bp) (strike_price bp)) eqn:Ec.
    + cbn [bind]. apply Hout.
    + unfold py_div.
      destruct (Qeq_bool (strike_price bp) 0) eqn:Es; cmp_cases; [lra |].
      cbn [bind]. unfold np_log_x.
      assert (Hratio : 0 < current_price bp / strike_price bp)
        by (apply Qlt_shift_div_l; lra).
      apply Qltb_true in Hratio. rewrite Hratio. unfold np_divide.
      destruct (Qeq_bool (implied_volatility bp
                          * np_sqrt (time_to_expiry bp / 365.0)) 0) eqn:Ev;
        cmp_cases.
      * destruct Hvol as [Ht | [Heq | Hnz]]; [lra | contradiction | contradiction].
      * apply Hout.
Qed.

Lemma np_argmin_nearest (grid : list Q) (f : Q -> Q) (target : Q) :
  grid <> [] ->
  (forall pc, f pc == Qabs (pc - target)) ->
  exists k, np_argmin (map f grid) = Ok k /\ nearest_index grid target k.
Proof.
  intros Hne Hf.
  destruct (np_argmin_first_min (map f grid)) as [k [Hk Hmin]].
  { destruct grid; [congruence | discriminate]. }
  exists k. split; [exact Hk |].
  apply (first_min_nearest grid f target k Hf Hmin).
Qed.

(** C8 (as amended).  On valid prices with a defined volatility term, the
    expected value is computed as
    [prob_itm * total_pnl[up_idx] + (1 - prob_itm) * total_pnl[down_idx]],
    where [prob_itm] is what [calculate_probability_itm] returns for the
    configured direction, a probability, and [up_idx] and [down_idx] are the
    first grid indices nearest to plus and minus [expected_move_pct]. *)
Theorem expected_value_weighs_nearest_points {L : NumericLib}
    (bp : BinaryOptionParams) (hp : HedgeParams) (direction : string) (num : Z) :
  cdf_is_probability L ->
  0 < current_price bp -> 0 < strike_price bp -> 0 <= time_to_expiry bp ->
  volatility_term_defined bp ->
  (2 <= num)%Z ->
  exists r p up_idx down_idx ev,
    simulate_scenarios bp hp direction num = Ok r
    /\ calculate_probability_itm (current_price bp) (strike_price bp)
         (implied_volatility bp) (time_to_expiry bp) direction = Ok (Fin p)
    /\ res_realistic_probability r = Fin p
    /\ 0 <= p /\ p <= 1
    /\ nearest_index (res_price_changes r) (expected_move_pct bp) up_idx
    /\ nearest_index (res_price_changes r) (- expected_move_pct bp) down_idx
    /\ res_expected_value r = Fin ev
    /\ ev == p * nth up_idx (res_total_pnl r) 0
             + (1 - p) * nth down_idx (res_total_pnl r) 0.
Proof.
  intros Hcdf Hcp Hk _ Hvol Hnum.
  destruct (simulate_scenarios_succeeds bp hp direction num)
    as (r & m & Hr & _ & _ & Hlen); [lra | lia | right; right; lra |].
  destruct (simulate_scenarios_inv bp hp direction num r Hr)
    as (m' & prob & ui & di & _ & _ & Hprob & Hrp & _ & _ & _ & _ & _ & _
        & Hup & Hdn & Hev).
  destruct (calculate_probability_itm_finite bp direction Hcdf Hcp Hk Hvol)
    as (p & Hp & Hp0 & Hp1).
  rewrite Hp in Hprob. injection Hprob as <-.
  assert (Hne : res_price_changes r <> []).
  { intro Hnil. rewrite Hnil in Hlen. simpl in Hlen. lia. }
  destruct (np_argmin_nearest (res_price_changes r)
              (fun pc => Qabs (pc - expected_move_pct bp))
              (expected_move_pct bp) Hne) as (ku & Hku & Hnu).
  { intro pc. reflexivity. }
  destruct (np_argmin_nearest (res_price_changes r)
              (fun pc => Qabs (pc + expected_move_pct bp))
              (- expected_move_pct bp) Hne) as (kd & Hkd & Hnd).
  { intro pc. apply Qabs_wd. ring. }
  rewrite Hup in Hku. injection Hku as <-.
  rewrite Hdn in Hkd. injection Hkd as <-.
  cbn [xmul xsub xopp xadd] in Hev.
  exists r, p, ui, di,
    (p * nth ui (res_total_pnl r) 0 + (1 - p) * nth di (res_total_pnl r) 0).
  repeat (split; [first [assumption | reflexivity] |]).
  reflexivity.
Qed.

Lemma rational_cdf_is_probability : cdf_is_probability RationalLib.lib.
Proof.
  intro x. simpl. unfold RationalLib.approx_cdf.
  pose proof (Qabs_nonneg x) as Hn.
  pose proof (Qle_Qabs x) as Hu.
  pose proof (Qle_Qabs (- x)) as Hl. rewrite Qabs_opp in Hl.
  assert (Hw : (x / (1 + Qabs x)) * (1 + Qabs x) == x)
    by (apply Qdiv_mult_cancel; lra).
  set (w := x / (1 + Qabs x)) in *. set (d := 1 + Qabs x) in *.
  assert (Hd : 0 < d) by (unfold d; lra).
  assert (Hw1 : - (1) <= w /\ w <= 1).
  { split.
    - destruct (Qlt_le_dec w (- (1))) as [Hlow | Hok]; [| exact Hok].
      unfold d in *. nra.
    - destruct (Qlt_le_dec 1 w) as [Hhigh | Hok]; [| exact Hok].
      unfold d in *. nra. }
  destruct Hw1 as [Hlo Hhi].
  assert (Hhalf : (1 + w) / 2 == (1 + w) * (1 # 2)) by field.
  rewrite Hhalf. split; lra.
Qed.

Lemma expected_value_weighs_nearest_points_witness :
  exists r p up_idx down_idx ev,
    simulate_scenarios (L := RationalLib.lib) (option_at_strike 365)
      (hedge_500 1 "short" false) "up" 7 = Ok r
    /\ calculate_probability_itm (L := RationalLib.lib)
         (current_price (option_at_strike 365))
         (strike_price (option_at_strike 365))
         (implied_volatility (option_at_strike 365))
         (time_to_expiry (option_at_strike 365)) "up" = Ok (Fin p)
    /\ res_realistic_probability r = Fin p
    /\ 0 <= p /\ p <= 1
    /\ nearest_index (res_price_changes r)
         (expected_move_pct (L := RationalLib.lib) (option_at_strike 365)) up_idx
    /\ nearest_index (res_price_changes r)
         (- expected_move_pct (L := RationalLib.lib) (option_at_strike 365))
         down_idx
    /\ res_expected_value r = Fin ev
    /\ ev == p * nth up_idx (res_total_pnl r) 0
             + (1 - p) * nth down_idx (res_total_pnl r) 0.
Proof.
  apply expected_value_weighs_nearest_points.
  - exact rational_cdf_is_probability.
  - by_evaluation.
  - by_evaluation.
  - by_evaluation.
  - right. left. by_evaluation.
  - lia.
Defined.

(** The run of the witness, evaluated: at one year to expiry the expected
    move is 30%, the nearest grid points are those at +0.3 and -0.3, and the
    expected value is the even-odds average of 450 and -850. *)
Example expected_value_sample :
  exists r,
    simulate_scenarios (L := RationalLib.lib) (option_at_strike 365)
      (hedge_500 1 "short" false) "up" 7 = Ok r
    /\ map Qred (res_price_changes r)
       = [- (9 # 10); - (3 # 5); - (3 # 10); 0; 3 # 10; 3 # 5; 9 # 10]
    /\ map Qred (res_total_pnl r)
       = [- (550); - (700); - (850); - (1000); 450; 300; 150]
    /\ res_realistic_probability r = Fin (1 # 2)
    /\ (exists ev, res_expected_value r = Fin ev /\ ev == - (200)).
Proof.
  eexists. split; [vm_compute; reflexivity |].
  repeat split; try (vm_compute; reflexivity).
  eexists. split; [reflexivity | by_evaluation].
Qed.

(** ** Where rounding decides

    The facts below evaluate the binary64 expressions of [Binary64]. *)
Module Rounding.

Import PrimFloat.
Set Warnings "-inexact-float".


(** C8 as stated fails: the expected value need not lie strictly between the
    two P&L values.  At expiry ([time_to_expiry = 0], a valid input) the
    expected move is zero, both nearest indices are the grid centre and the
    expected value is the P&L there.  With a year to expiry, a strike at twice
    the price and no hedge, the two indices differ but the P&L is -1000 at
    both, and so is the expected value in exact arithmetic.  In the arithmetic
    of the code it need not even lie between them, ends included: with both
    P&L values at -1000, a probability of 0.07 gives -999.9999999999999 and a
    probability of 0.18 gives -1000.0000000000001. *)
Lemma expected_value_claim_fails :
  ((exists r ev,
      simulate_scenarios (L := RationalLib.lib) (option_at_strike 0)
        (hedge_500 10 "short" false) "up" 5 = Ok r
      /\ np_argmin (map (fun pc => Qabs (pc - expected_move_pct
                                            (L := RationalLib.lib)
                                            (option_at_strike 0)))
                      (res_price_changes r)) = Ok 2%nat
      /\ np_argmin (map (fun pc => Qabs (pc + expected_move_pct
                                            (L := RationalLib.lib)
                                            (option_at_strike 0)))
                      (res_price_changes r)) = Ok 2%nat
      /\ res_realistic_probability r = Fin 0
      /\ res_expected_value r = Fin ev
      /\ ev == nth 2 (res_total_pnl r) 0
      /\ ~ (nth 2 (res_total_pnl r) 0 < ev /\ ev < nth 2 (res_total_pnl r) 0))
  /\ (exists r ev,
         simulate_scenarios (L := RationalLib.lib)
           (mkBinaryOptionParams 100 200 1.6 1.2 1000 0.5 0.30 365)
           (mkHedgeParams 0 1 "short" false 0.001) "up" 11 = Ok r
         /\ np_argmin
              (map (fun pc =>
                      Qabs (pc - expected_move_pct (L := RationalLib.lib)
                                   (mkBinaryOptionParams 100 200 1.6 1.2 1000
                                      0.5 0.30 365)))
                   (res_price_changes r)) = Ok 6%nat
         /\ np_argmin
              (map (fun pc =>
                      Qabs (pc + expected_move_pct (L := RationalLib.lib)
                                   (mkBinaryOptionParams 100 200 1.6 1.2 1000
                                      0.5 0.30 365)))
                   (res_price_changes r)) = Ok 4%nat
         /\ expected_move_pct (L := RationalLib.lib)
              (mkBinaryOptionParams 100 200 1.6 1.2 1000 0.5 0.30 365) == 0.3
         /\ res_expected_value r = Fin ev
         /\ nth 6 (res_total_pnl r) 0 == - (1000)
         /\ nth 4 (res_total_pnl r) 0 == - (1000)
         /\ ev == - (1000)
         /\ ~ ((nth 6 (res_total_pnl r) 0 < ev /\ ev < nth 4 (res_total_pnl r) 0)
               \/ (nth 4 (res_total_pnl r) 0 < ev
                   /\ ev < nth 6 (res_total_pnl r) 0))))
  /\ (Binary64.expected_value 0.07%float (-1000)%float (-1000)%float
      = (-999.99999999999989)%float
      /\ ltb (-1000)%float
           (Binary64.expected_value 0.07%float (-1000)%float (-1000)%float)
         = true
      /\ Binary64.expected_value 0.18%float (-1000)%float (-1000)%float
         = (-1000.0000000000001)%float
      /\ ltb (Binary64.expected_value 0.18%float (-1000)%float (-1000)%float)
           (-1000)%float
         = true).
Proof.
  split; [| repeat split; vm_compute; reflexivity].

  split.
  - eexists. eexists. split; [vm_compute; reflexivity |].
    split; [vm_compute; reflexivity |].
    split; [vm_compute; reflexivity |].
    split; [reflexivity |].
    split; [reflexivity |].
    split; [by_evaluation |].
    intros [H1 H2]. apply Qltb_true in H1. vm_compute in H1. discriminate.
  - eexists. eexists. split; [vm_compute; reflexivity |].
    split; [vm_compute; reflexivity |].
    split; [vm_compute; reflexivity |].
    split; [by_evaluation |].
    split; [reflexivity |].
    split; [by_evaluation |].
    split; [by_evaluation |].
    split; [by_evaluation |].
    intros [[H1 H2] | [H1 H2]]; apply Qltb_true in H1; vm_compute in H1;
      discriminate.
Qed.

(** The reported liquidation threshold and the one the engine tests are the
    same number in exact arithmetic but not always in binary64: at leverage 37
    the reported -0.027027027027027025 lies above the tested
    -0.02702702702702703, so the P&L at the reported point is not yet the
    liquidated one. *)
Example reported_threshold_is_rounded :
  Binary64.reported_liquidation_long 37%float = (-0.027027027027027025)%float
  /\ Binary64.liquidation_point_long 37%float = (-0.027027027027027029)%float
  /\ ltb (Binary64.liquidation_point_long 37%float)
         (Binary64.reported_liquidation_long 37%float) = true.
Proof. repeat split; vm_compute; reflexivity. Qed.

End Rounding.

(** * Further properties of the engine *)

(** ** The hedge P&L: symmetry, fees and order *)

Lemma Qdiv_opp_one (l : Q) : - (1) / l == - (1 / l).
Proof. unfold Qdiv. ring. Qed.

Lemma Qle_bool_eq_iff (a b c d : Q) :
  (a <= b <-> c <= d) -> Qle_bool a b = Qle_bool c d.
Proof.
  intro H.
  destruct (Qle_bool a b) eqn:E1; destruct (Qle_bool c d) eqn:E2;
    try reflexivity; cmp_cases.
  - apply H in E1. lra.
  - apply H in E2. lra.
Qed.

(** A short hedge is the mirror image of the long one: its P&L at a price
    change is that of the long hedge at the opposite price change, in every
    branch (unleveraged, liquidated, open; with or without fees).  Every
    direction other than ["long"] is treated as short. *)
Theorem hedge_short_mirrors_long (h l f : Q) (fees : bool) (d : string) (pc : Q) :
  d <> "long" ->
  calculate_hedge_pnl (mkHedgeParams h l d fees f) pc
  = calculate_hedge_pnl (mkHedgeParams h l "long" fees f) (- pc).
Proof.
  intro Hd. apply String.eqb_neq in Hd.
  unfold calculate_hedge_pnl. cbn [hedge_direction hedge_amount leverage
    apply_fees fee_rate]. rewrite Hd. simpl String.eqb. cbv iota.
  destruct (Qle_bool l 1); [reflexivity |].
  assert (Hb : Qle_bool (1 / l) pc = Qle_bool (- pc) (- (1) / l)).
  { apply Qle_bool_eq_iff. rewrite Qdiv_opp_one. split; intro; lra. }
  rewrite Hb. reflexivity.
Qed.

Lemma hedge_short_mirrors_long_witness :
  calculate_hedge_pnl (mkHedgeParams 500 10 "short" true 0.001) 0.05
  = calculate_hedge_pnl (mkHedgeParams 500 10 "long" true 0.001) (- 0.05).
Proof.
  apply hedge_short_mirrors_long. discriminate.
Defined.

(** Applying fees lowers the hedge P&L by the entry fee
    [hedge_amount * leverage * fee_rate] when the position is liquidated and
    by twice that (entry and exit) otherwise, at every price change. *)
Theorem fees_lower_hedge_pnl (h l f : Q) (d : string) (pc : Q) :
  calculate_hedge_pnl (mkHedgeParams h l d true f) pc
  == calculate_hedge_pnl (mkHedgeParams h l d false f) pc
     - (if is_liquidated (mkHedgeParams h l d false f) pc then 1 else 2)
       * (h * l * f).
Proof.
  unfold calculate_hedge_pnl, is_liquidated.
  cbn [hedge_direction hedge_amount leverage apply_fees fee_rate].
  destruct (Qle_bool l 1); cbn [negb andb].
  - destruct (String.eqb d "long"); ring.
  - destruct (String.eqb d "long").
    + destruct (Qle_bool pc (- (1) / l)); ring.
    + destruct (Qle_bool (1 / l) pc); ring.
Qed.

(** Without fees and with a non-negative collateral, the P&L of a long hedge
    never decreases as the price change grows, and that of a short hedge
    never increases: liquidation caps the loss without breaking the order. *)
Theorem hedge_pnl_monotone_without_fees (hedge : HedgeParams) (pc1 pc2 : Q) :
  0 <= hedge_amount hedge ->
  apply_fees hedge = false ->
  pc1 <= pc2 ->
  if String.eqb (hedge_direction hedge) "long"
  then calculate_hedge_pnl hedge pc1 <= calculate_hedge_pnl hedge pc2
  else calculate_hedge_pnl hedge pc2 <= calculate_hedge_pnl hedge pc1.
Proof.
  intros Hh Hfees Hpc. unfold calculate_hedge_pnl. rewrite Hfees.
  destruct (Qle_bool (leverage hedge) 1) eqn:El; cmp_cases.
  - destruct (String.eqb (hedge_direction hedge) "long"); nra.
  - destruct (String.eqb (hedge_direction hedge) "long").
    + destruct (Qle_bool pc1 (- (1) / leverage hedge)) eqn:E1;
        destruct (Qle_bool pc2 (- (1) / leverage hedge)) eqn:E2; cmp_cases.
      * lra.
      * apply open_long_above_collateral; assumption.
      * lra.
      * assert (0 <= hedge_amount hedge * leverage hedge) by nra. nra.
    + destruct (Qle_bool (1 / leverage hedge) pc1) eqn:E1;
        destruct (Qle_bool (1 / leverage hedge) pc2) eqn:E2; cmp_cases.
      * lra.
      * lra.
      * apply open_short_above_collateral; assumption.
      * assert (0 <= hedge_amount hedge * leverage hedge) by nra. nra.
Qed.

Lemma hedge_pnl_monotone_without_fees_witness :
  calculate_hedge_pnl (hedge_500 10 "long" false) (- 0.5)
  <= calculate_hedge_pnl (hedge_500 10 "long" false) (- 0.05).
Proof.
  apply (hedge_pnl_monotone_without_fees (hedge_500 10 "long" false)
           (- 0.5) (- 0.05)); [by_evaluation | reflexivity | by_evaluation].
Defined.

(** With fees the order is broken at the liquidation point: the liquidated
    long position (-505) is better off than the one still open just above
    (-507.5). *)
Example liquidation_beats_open_with_fees :
  calculate_hedge_pnl (hedge_500 10 "long" true) (- 0.1) == - (505)
  /\ calculate_hedge_pnl (hedge_500 10 "long" true) (- 0.0995) == - 507.5.
Proof. split; by_evaluation. Qed.

(** ** The binary payoff *)

(** At every price change exactly one of the two bets wins: when the price
    [current_price * (1 + price_change)] is above the strike the bet on "up"
    earns its payout and the bet on "down" loses the stake, and otherwise
    (a price exactly at the strike included) it is the other way round.  A
    direction that is neither always loses the stake. *)
Theorem binary_bets_are_complementary (bp : BinaryOptionParams) (pc : Q) :
  (strike_price bp < current_price bp * (1 + pc) ->
   binary_pnl_at bp "up" pc
   = investment_amount bp * (payout_multiplier_up bp - 1)
   /\ binary_pnl_at bp "down" pc = - investment_amount bp)
  /\ (current_price bp * (1 + pc) <= strike_price bp ->
      binary_pnl_at bp "up" pc = - investment_amount bp
      /\ binary_pnl_at bp "down" pc
         = investment_amount bp * (payout_multiplier_down bp - 1))
  /\ (forall d, d <> "up" -> d <> "down" ->
        binary_pnl_at bp d pc = - investment_amount bp).
Proof.
  unfold binary_pnl_at, calculate_binary_option_payout.
  split; [| split].
  - intro H. apply Qltb_true in H. rewrite H. split; reflexivity.
  - intro H. apply Qltb_false in H. rewrite H. split; reflexivity.
  - intros d Hu Hd. apply String.eqb_neq in Hu, Hd. rewrite Hu, Hd.
    reflexivity.
Qed.

Lemma binary_bets_are_complementary_witness :
  binary_pnl_at (option_at_strike 7) "up" 0
  = - investment_amount (option_at_strike 7)
  /\ binary_pnl_at (option_at_strike 7) "down" 0
     = investment_amount (option_at_strike 7)
       * (payout_multiplier_down (option_at_strike 7) - 1).
Proof.
  apply (proj1 (proj2 (binary_bets_are_complementary (option_at_strike 7) 0))).
  by_evaluation.
Defined.

(** With a non-negative stake and payout multipliers of at least 1, the bet
    on "up" never pays less at a larger price change, and the bet on "down"
    never pays more. *)
Theorem binary_pnl_monotone (bp : BinaryOptionParams) (pc1 pc2 : Q) :
  0 < current_price bp ->
  0 <= investment_amount bp ->
  1 <= payout_multiplier_up bp ->
  1 <= payout_multiplier_down bp ->
  pc1 <= pc2 ->
  binary_pnl_at bp "up" pc1 <= binary_pnl_at bp "up" pc2
  /\ binary_pnl_at bp "down" pc2 <= binary_pnl_at bp "down" pc1.
Proof.
  intros Hcp Hinv Hu Hd Hpc.
  unfold binary_pnl_at, calculate_binary_option_payout.
  simpl String.eqb. cbn [andb orb].
  assert (Hwu : 0 <= investment_amount bp * (payout_multiplier_up bp - 1))
    by nra.
  assert (Hwd : 0 <= investment_amount bp * (payout_multiplier_down bp - 1))
    by nra.
  assert (Hord : current_price bp * (1 + pc1) <= current_price bp * (1 + pc2))
    by nra.
  destruct (Qltb (strike_price bp) (current_price bp * (1 + pc1))) eqn:E1;
    destruct (Qltb (strike_price bp) (current_price bp * (1 + pc2))) eqn:E2;
    cmp_cases; cbn [negb andb orb]; cbv iota; split; lra.
Qed.

Lemma binary_pnl_monotone_witness :
  binary_pnl_at (option_at_strike 7) "up" (- 0.05)
  <= binary_pnl_at (option_at_strike 7) "up" 0.05
  /\ binary_pnl_at (option_at_strike 7) "down" 0.05
     <= binary_pnl_at (option_at_strike 7) "down" (- 0.05).
Proof.
  apply binary_pnl_monotone; by_evaluation.
Defined.

(** With a zero hedge amount the hedge contributes nothing, whatever the
    leverage, direction and fees: the total P&L is the binary P&L. *)
Theorem no_hedge_total_is_binary (bp : BinaryOptionParams) (hp : HedgeParams)
    (direction : string) (pc : Q) :
  hedge_amount hp == 0 ->
  calculate_hedge_pnl hp pc == 0
  /\ total_pnl_at bp hp direction pc == binary_pnl_at bp direction pc.
Proof.
  intro Hz.
  assert (Hh : calculate_hedge_pnl hp pc == 0).
  { unfold calculate_hedge_pnl.
    destruct (Qle_bool (leverage hp) 1);
      destruct (String.eqb (hedge_direction hp) "long");
      destruct (apply_fees hp);
      try destruct (Qle_bool pc (- (1) / leverage hp));
      try destruct (Qle_bool (1 / leverage hp) pc);
      rewrite Hz; ring. }
  split; [exact Hh |]. unfold total_pnl_at. rewrite Hh. ring.
Qed.

Lemma no_hedge_total_is_binary_witness :
  calculate_hedge_pnl (mkHedgeParams 0 25 "short" true 0.001) 0.5 == 0
  /\ total_pnl_at (option_at_strike 7) (mkHedgeParams 0 25 "short" true 0.001)
       "up" 0.5
     == binary_pnl_at (option_at_strike 7) "up" 0.5.
Proof.
  apply no_hedge_total_is_binary. reflexivity.
Defined.

(** ** The probability estimate: complement, errors and zero volatility *)

(** With time left, the estimate for "down" is one minus the estimate for
    "up" (and fails exactly when that one fails).  At or after expiry and away
    from the strike, one of the two directions has probability 1 and the
    other 0. *)
Theorem probability_down_complements_up {L : NumericLib}
    (cp strike iv t : Q) :
  (0 < t ->
   calculate_probability_itm cp strike iv t "down"
   = match calculate_probability_itm cp strike iv t "up" with
     | Ok p => Ok (xsub (Fin 1) p)
     | Raise e => Raise e
     end)
  /\ (t <= 0 -> ~ cp == strike ->
      (calculate_probability_itm cp strike iv t "up" = Ok (Fin 1)
       /\ calculate_probability_itm cp strike iv t "down" = Ok (Fin 0))
      \/ (calculate_probability_itm cp strike iv t "up" = Ok (Fin 0)
          /\ calculate_probability_itm cp strike iv t "down" = Ok (Fin 1))).
Proof.
  split.
  - intro Ht. unfold calculate_probability_itm.
    apply Qle_bool_false in Ht. rewrite Ht.
    destruct (Qeq_bool cp strike); [reflexivity |].
    destruct (py_div cp strike); reflexivity.
  - intros Ht Hne. unfold calculate_probability_itm.
    apply Qle_bool_iff in Ht. rewrite Ht. simpl String.eqb. cbn [andb orb].
    destruct (Qltb strike cp) eqn:E1; destruct (Qltb cp strike) eqn:E2;
      cmp_cases; cbn [andb orb]; auto.
    + lra.
    + exfalso. apply Hne. lra.
Qed.

Lemma probability_down_complements_up_witness :
  calculate_probability_itm (L := RationalLib.lib) 100 100 0.30 365 "down"
  = match calculate_probability_itm (L := RationalLib.lib) 100 100 0.30 365 "up"
    with
    | Ok p => Ok (xsub (Fin 1) p)
    | Raise e => Raise e
    end.
Proof.
  apply (proj1 (probability_down_complements_up (L := RationalLib.lib)
                  100 100 0.30 365)).
  by_evaluation.
Defined.

(** The only error of the estimate is the division of the price by a zero
    strike, which happens exactly when there is time left and the price is
    not at the strike; every other input returns a value. *)
Theorem probability_raises_only_on_zero_strike {L : NumericLib}
    (cp strike iv t : Q) (direction : string) :
  (calculate_probability_itm cp strike iv t direction = Raise ZeroDivisionError
   <-> (0 < t /\ ~ cp == strike /\ strike == 0))
  /\ calculate_probability_itm cp strike iv t direction <> Raise ValueError.
Proof.
  unfold calculate_probability_itm, py_div.
  destruct (Qle_bool t 0) eqn:Et; cmp_cases.
  - split; [split |]; try discriminate. intros [Ht _]. lra.
  - destruct (Qeq_bool cp strike) eqn:Ec; cmp_cases; cbn [bind].
    + split; [split |]; try discriminate. intros [_ [Hne _]]. contradiction.
    + destruct (Qeq_bool strike 0) eqn:Es; cmp_cases; cbn [bind].
      * split; [split |]; try discriminate; auto.
      * split; [split |]; try discriminate. intros [_ [_ Hz]]. contradiction.
Qed.

(** Zero volatility with time left and a positive price away from a positive
    strike is not an error: the quotient by zero is an infinity of the sign
    of the logarithm, and the estimate for "up" is 1 when the logarithm of
    price over strike is positive and 0 when it is negative (the estimate for
    "down" is the complement). *)
Theorem zero_volatility_gives_certainty {L : NumericLib}
    (cp strike iv t : Q) :
  0 < t -> 0 < cp -> 0 < strike -> ~ cp == strike ->
  iv * np_sqrt (t / 365.0) == 0 ->
  (0 < np_log (cp / strike) ->
   calculate_probability_itm cp strike iv t "up" = Ok (Fin 1)
   /\ exists q, calculate_probability_itm cp strike iv t "down" = Ok (Fin q)
                /\ q == 0)
  /\ (np_log (cp / strike) < 0 ->
      calculate_probability_itm cp strike iv t "up" = Ok (Fin 0)
      /\ exists q, calculate_probability_itm cp strike iv t "down" = Ok (Fin q)
                   /\ q == 1)
  /\ (np_log (cp / strike) == 0 ->
      calculate_probability_itm cp strike iv t "up" = Ok NaN
      /\ calculate_probability_itm cp strike iv t "down" = Ok NaN).
Proof.
  intros Ht Hcp Hk Hne Hvol. unfold calculate_probability_itm, py_div.
  apply Qle_bool_false in Ht. rewrite Ht.
  assert (Ec : Qeq_bool cp strike = false).
  { destruct (Qeq_bool cp strike) eqn:E; [| reflexivity]. cmp_cases.
    contradiction. }
  assert (Es : Qeq_bool strike 0 = false).
  { destruct (Qeq_bool strike 0) eqn:E; [| reflexivity]. cmp_cases. lra. }
  rewrite Ec, Es. cbn [bind]. unfold np_log_x.
  assert (Hr : Qltb 0 (cp / strike) = true)
    by (apply Qltb_true; apply Qlt_shift_div_l; lra).
  rewrite Hr. unfold np_divide.
  apply Qeq_bool_iff in Hvol. rewrite Hvol.
  simpl String.eqb. cbv iota.
  split; [| split]; intro Hlog.
  - assert (E0 : Qeq_bool (np_log (cp / strike)) 0 = false).
    { apply not_true_is_false. intro E. apply Qeq_bool_iff in E. lra. }
    assert (E1 : Qltb (np_log (cp / strike)) 0 = false)
      by (apply Qltb_false; lra).
    rewrite E0, E1. cbn [norm_cdf_x xsub xopp xadd].
    split; [reflexivity |]. eexists. split; [reflexivity | lra].
  - assert (E0 : Qeq_bool (np_log (cp / strike)) 0 = false).
    { apply not_true_is_false. intro E. apply Qeq_bool_iff in E. lra. }
    assert (E1 : Qltb (np_log (cp / strike)) 0 = true)
      by (apply Qltb_true; lra).
    rewrite E0, E1. cbn [norm_cdf_x xsub xopp xadd].
    split; [reflexivity |]. eexists. split; [reflexivity | lra].
  - apply Qeq_bool_iff in Hlog. rewrite Hlog.
    cbn [norm_cdf_x xsub xopp xadd]. split; reflexivity.
Qed.

Lemma zero_volatility_gives_certainty_witness :
  (0 < @np_log RationalLib.lib (100 / 110) ->
   calculate_probability_itm (L := RationalLib.lib) 100 110 0 365 "up"
   = Ok (Fin 1)
   /\ exists q,
        calculate_probability_itm (L := RationalLib.lib) 100 110 0 365 "down"
        = Ok (Fin q) /\ q == 0)
  /\ (@np_log RationalLib.lib (100 / 110) < 0 ->
      calculate_probability_itm (L := RationalLib.lib) 100 110 0 365 "up"
      = Ok (Fin 0)
      /\ exists q,
           calculate_probability_itm (L := RationalLib.lib) 100 110 0 365 "down"
           = Ok (Fin q) /\ q == 1)
  /\ (@np_log RationalLib.lib (100 / 110) == 0 ->
      calculate_probability_itm (L := RationalLib.lib) 100 110 0 365 "up"
      = Ok NaN
      /\ calculate_probability_itm (L := RationalLib.lib) 100 110 0 365 "down"
         = Ok NaN).
Proof.
  apply zero_volatility_gives_certainty; by_evaluation.
Defined.

(** ** The grid: outcomes, small sizes and the centre *)

(** [generate_price_scenarios] fails with [ZeroDivisionError] on a zero
    price and with [ValueError] on a negative number of points; otherwise it
    returns exactly [num_points] price changes. *)
Theorem generate_price_scenarios_outcome {L : NumericLib}
    (cp strike iv t : Q) (num : Z) :
  (cp == 0 ->
   generate_price_scenarios cp strike iv t num = Raise ZeroDivisionError)
  /\ (~ cp == 0 -> (num < 0)%Z ->
      generate_price_scenarios cp strike iv t num = Raise ValueError)
  /\ (~ cp == 0 -> (0 <= num)%Z ->
      exists grid,
        generate_price_scenarios cp strike iv t num = Ok grid
        /\ length grid = Z.to_nat num).
Proof.
  split; [| split].
  - intro Hcp. unfold generate_price_scenarios, py_div.
    apply Qeq_bool_iff in Hcp. rewrite Hcp. reflexivity.
  - intros Hcp Hnum. rewrite generate_price_scenarios_linspace by exact Hcp.
    apply np_linspace_negative. exact Hnum.
  - intros Hcp Hnum. rewrite generate_price_scenarios_linspace by exact Hcp.
    apply np_linspace_length. exact Hnum.
Qed.

Lemma generate_price_scenarios_outcome_witness :
  generate_price_scenarios (L := RationalLib.lib) 0 100 0.30 365 100
  = Raise ZeroDivisionError.
Proof.
  apply (proj1 (generate_price_scenarios_outcome (L := RationalLib.lib)
                  0 100 0.30 365 100)).
  reflexivity.
Defined.

(** The small grids are not symmetric: one point gives the single price
    change [-max_move_pct] (the lower end, not the centre), and zero points
    give the empty grid. *)
Theorem generate_price_scenarios_small_grids {L : NumericLib}
    (cp strike iv t : Q) :
  ~ cp == 0 ->
  (exists v, generate_price_scenarios cp strike iv t 1 = Ok [v]
             /\ v == - scenario_half_width cp strike iv t)
  /\ generate_price_scenarios cp strike iv t 0 = Ok [].
Proof.
  intro Hcp. rewrite !generate_price_scenarios_linspace by exact Hcp.
  split.
  - eexists. split; [reflexivity |]. cbv beta.
    change (inject_Z (Z.of_nat 0)) with 0. ring.
  - reflexivity.
Qed.

Lemma generate_price_scenarios_small_grids_witness :
  (exists v,
      generate_price_scenarios (L := RationalLib.lib) 100 110 0.30 365 1 = Ok [v]
      /\ v == - scenario_half_width (L := RationalLib.lib) 100 110 0.30 365)
  /\ generate_price_scenarios (L := RationalLib.lib) 100 110 0.30 365 0 = Ok [].
Proof.
  apply generate_price_scenarios_small_grids. by_evaluation.
Defined.

(** With an even number of points (the default 100 among them) and a
    positive half-width, the unchanged price is never evaluated: no price
    change of the grid is zero. *)
Theorem even_grid_skips_unchanged_price {L : NumericLib}
    (cp strike iv t : Q) (num : Z) :
  0 < cp -> 0 <= t -> (2 <= num)%Z -> Z.even num = true ->
  0 < scenario_half_width cp strike iv t ->
  exists grid,
    generate_price_scenarios cp strike iv t num = Ok grid
    /\ forall i, (i < Z.to_nat num)%nat -> ~ nth i grid 0 == 0.
Proof.
  intros Hcp _ Hnum Heven Hm. rewrite generate_price_scenarios_linspace by lra.
  set (m := scenario_half_width cp strike iv t) in *.
  destruct (symmetric_linspace_closed_form m num Hnum)
    as (grid & Hrun & Hlen & Hlast & Hnth).
  pose proof (grid_span m num Hnum) as Hspan.
  exists grid. split; [exact Hrun |].
  intros i Hi Hzero. rewrite (Hnth i Hi) in Hzero.
  pose proof (grid_step_positive m num Hnum Hm) as Hs.
  set (s := 2 * m / inject_Z (num - 1)) in *.
  assert (Heq : (2 * inject_Z (Z.of_nat i) - inject_Z (num - 1)) * s == 0)
    by lra.
  assert (Hdiff : 2 * inject_Z (Z.of_nat i) - inject_Z (num - 1) == 0).
  { destruct (Qmult_integral _ _ Heq) as [H | H]; [exact H |].
    exfalso. apply (Qlt_not_eq _ _ Hs). symmetry. exact H. }
  assert (Hz : inject_Z (2 * Z.of_nat i) == inject_Z (num - 1)).
  { rewrite inject_Z_mult. change (inject_Z 2) with 2.
    apply Qplus_inj_r with (z := - inject_Z (num - 1)).
    rewrite Qplus_opp_r. exact Hdiff. }
  apply -> inject_Z_injective in Hz.
  rewrite Z.even_spec in Heven. destruct Heven as [k Hk]. lia.
Qed.

Lemma even_grid_skips_unchanged_price_witness :
  exists grid,
    generate_price_scenarios (L := RationalLib.lib) 100 110 0.30 365 100
    = Ok grid
    /\ forall i, (i < Z.to_nat 100)%nat -> ~ nth i grid 0 == 0.
Proof.
  apply even_grid_skips_unchanged_price;
    [by_evaluation | by_evaluation | lia | reflexivity | by_evaluation].
Defined.

(** ** The result of a run: extremes, alignment, liquidation thresholds *)

Lemma fold_max_spec (t : list Q) (x : Q) :
  let r := fold_left (fun m y => if Qltb m y then y else m) t x in
  (r = x \/ In r t) /\ x <= r /\ forall y, In y t -> y <= r.
Proof.
  revert x. induction t as [| a t IH]; intro x; cbn zeta.
  - simpl. repeat split; [left; reflexivity | lra | contradiction].
  - simpl fold_left. destruct (Qltb x a) eqn:E; cmp_cases.
    + destruct (IH a) as [Hin [Hle Hall]]. cbn zeta in *. repeat split.
      * right. destruct Hin as [-> | Hin]; [left; reflexivity | right; exact Hin].
      * lra.
      * intros y [<- | Hy]; [exact Hle | apply Hall; exact Hy].
    + destruct (IH x) as [Hin [Hle Hall]]. cbn zeta in *. repeat split.
      * destruct Hin as [-> | Hin]; [left; reflexivity | right; right; exact Hin].
      * exact Hle.
      * intros y [<- | Hy]; [lra | apply Hall; exact Hy].
Qed.

Lemma fold_min_spec (t : list Q) (x : Q) :
  let r := fold_left (fun m y => if Qltb y m then y else m) t x in
  (r = x \/ In r t) /\ r <= x /\ forall y, In y t -> r <= y.
Proof.
  revert x. induction t as [| a t IH]; intro x; cbn zeta.
  - simpl. repeat split; [left; reflexivity | lra | contradiction].
  - simpl fold_left. destruct (Qltb a x) eqn:E; cmp_cases.
    + destruct (IH a) as [Hin [Hle Hall]]. cbn zeta in *. repeat split.
      * right. destruct Hin as [-> | Hin]; [left; reflexivity | right; exact Hin].
      * lra.
      * intros y [<- | Hy]; [exact Hle | apply Hall; exact Hy].
    + destruct (IH x) as [Hin [Hle Hall]]. cbn zeta in *. repeat split.
      * destruct Hin as [-> | Hin]; [left; reflexivity | right; right; exact Hin].
      * exact Hle.
      * intros y [<- | Hy]; [lra | apply Hall; exact Hy].
Qed.

Lemma np_max_spec (l : list Q) (mx : Q) :
  np_max l = Ok mx -> In mx l /\ forall y, In y l -> y <= mx.
Proof.
  destruct l as [| x t]; [discriminate |]. simpl. intro H. injection H as <-.
  destruct (fold_max_spec t x) as [Hin [Hle Hall]]. cbn zeta in *. split.
  - destruct Hin as [-> | Hin]; [left; reflexivity | right; exact Hin].
  - intros y [<- | Hy]; [exact Hle | apply Hall; exact Hy].
Qed.

Lemma np_min_spec (l : list Q) (mn : Q) :
  np_min l = Ok mn -> In mn l /\ forall y, In y l -> mn <= y.
Proof.
  destruct l as [| x t]; [discriminate |]. simpl. intro H. injection H as <-.
  destruct (fold_min_spec t x) as [Hin [Hle Hall]]. cbn zeta in *. split.
  - destruct Hin as [-> | Hin]; [left; reflexivity | right; exact Hin].
  - intros y [<- | Hy]; [exact Hle | apply Hall; exact Hy].
Qed.

(** In every result for a non-negative time to expiry, [max_profit] and
    [max_loss] are total P&L values of the grid, and every total P&L of the
    grid lies between them. *)
Theorem extremes_bound_the_sweep {L : NumericLib}
    (bp : BinaryOptionParams) (hp : HedgeParams) (direction : string) (num : Z)
    (r : Results) :
  0 <= time_to_expiry bp ->
  simulate_scenarios bp hp direction num = Ok r ->
  In (res_max_profit r) (res_total_pnl r)
  /\ In (res_max_loss r) (res_total_pnl r)
  /\ (forall v, In v (res_total_pnl r) ->
        res_max_loss r <= v /\ v <= res_max_profit r)
  /\ res_max_loss r <= res_max_profit r.
Proof.
  intros _ Hr.
  destruct (simulate_scenarios_inv bp hp direction num r Hr)
    as (m & prob & ui & di & _ & _ & _ & _ & _ & _ & _ & Hmax & Hmin & _).
  destruct (np_max_spec _ _ Hmax) as [Hmx_in Hmx].
  destruct (np_min_spec _ _ Hmin) as [Hmn_in Hmn].
  repeat split; auto.
Qed.

Lemma extremes_bound_the_sweep_witness :
  exists r,
    simulate_scenarios (L := RationalLib.lib) (option_at_strike 365)
      (hedge_500 1 "short" false) "up" 7 = Ok r
    /\ In (res_max_profit r) (res_total_pnl r)
    /\ In (res_max_loss r) (res_total_pnl r)
    /\ (forall v, In v (res_total_pnl r) ->
          res_max_loss r <= v /\ v <= res_max_profit r)
    /\ res_max_loss r <= res_max_profit r.
Proof.
  eexists. split; [vm_compute; reflexivity |].
  apply (extremes_bound_the_sweep (L := RationalLib.lib) (option_at_strike 365)
           (hedge_500 1 "short" false) "up" 7).
  - by_evaluation.
  - vm_compute. reflexivity.
Defined.

(** The per-point sequences of a result are aligned with the grid: they have
    its length, and at every index the binary and hedge P&L are those of the
    grid's price change there and the total is their sum. *)
Theorem result_sequences_are_aligned {L : NumericLib}
    (bp : BinaryOptionParams) (hp : HedgeParams) (direction : string) (num : Z)
    (r : Results) :
  simulate_scenarios bp hp direction num = Ok r ->
  length (res_total_pnl r) = length (res_price_changes r)
  /\ length (res_binary_pnl r) = length (res_price_changes r)
  /\ length (res_hedge_pnl r) = length (res_price_changes r)
  /\ forall i, (i < length (res_price_changes r))%nat ->
       nth i (res_binary_pnl r) 0
       = binary_pnl_at bp direction (nth i (res_price_changes r) 0)
       /\ nth i (res_hedge_pnl r) 0
          = calculate_hedge_pnl hp (nth i (res_price_changes r) 0)
       /\ nth i (res_total_pnl r) 0
          = nth i (res_binary_pnl r) 0 + nth i (res_hedge_pnl r) 0.
Proof.
  intro Hr.
  destruct (simulate_scenarios_inv bp hp direction num r Hr)
    as (m & prob & ui & di & _ & _ & _ & _ & Ht & Hb & Hh & _).
  rewrite Ht, Hb, Hh, !length_map. repeat split; try reflexivity.
  - rewrite (nth_indep _ 0 (binary_pnl_at bp direction 0))
      by (rewrite length_map; assumption).
    apply map_nth.
  - rewrite (nth_indep _ 0 (calculate_hedge_pnl hp 0))
      by (rewrite length_map; assumption).
    apply map_nth.
  - rewrite (nth_indep (map (total_pnl_at _ _ _) _) 0
               (total_pnl_at bp hp direction 0))
      by (rewrite length_map; assumption).
    rewrite (nth_indep (map (binary_pnl_at _ _) _) 0
               (binary_pnl_at bp direction 0))
      by (rewrite length_map; assumption).
    rewrite (nth_indep (map (calculate_hedge_pnl _) _) 0
               (calculate_hedge_pnl hp 0))
      by (rewrite length_map; assumption).
    rewrite !map_nth. reflexivity.
Qed.

Lemma result_sequences_are_aligned_witness :
  exists r,
    simulate_scenarios (L := RationalLib.lib) (option_at_strike 365)
      (hedge_500 1 "short" false) "up" 7 = Ok r
    /\ length (res_total_pnl r) = length (res_price_changes r)
    /\ length (res_binary_pnl r) = length (res_price_changes r)
    /\ length (res_hedge_pnl r) = length (res_price_changes r)
    /\ forall i, (i < length (res_price_changes r))%nat ->
         nth i (res_binary_pnl r) 0
         = binary_pnl_at (option_at_strike 365) "up"
             (nth i (res_price_changes r) 0)
         /\ nth i (res_hedge_pnl r) 0
            = calculate_hedge_pnl (hedge_500 1 "short" false)
                (nth i (res_price_changes r) 0)
         /\ nth i (res_total_pnl r) 0
            = nth i (res_binary_pnl r) 0 + nth i (res_hedge_pnl r) 0.
Proof.
  eexists. split; [vm_compute; reflexivity |].
  apply (result_sequences_are_aligned (L := RationalLib.lib)
           (option_at_strike 365) (hedge_500 1 "short" false) "up" 7).
  vm_compute. reflexivity.
Defined.

(** The reporting fields of a successful run. *)
Lemma simulate_scenarios_reporting {L : NumericLib}
    (bp : BinaryOptionParams) (hp : HedgeParams) (direction : string) (num : Z)
    (r : Results) :
  simulate_scenarios bp hp direction num = Ok r ->
  (res_liquidation_long r, res_liquidation_short r)
  = (if Qltb 1 (leverage hp) then
       if String.eqb (hedge_direction hp) "long"
       then (Some (- (100.0) / leverage hp / 100.0), None)
       else (None, Some (- (- (100.0) / leverage hp) / 100.0))
     else (None, None)).
Proof.
  unfold simulate_scenarios, bind.
  destruct (grid_half_width bp hp) as [m | e]; [| discriminate].
  destruct (np_linspace (- m) m num) as [grid | e]; [| discriminate].
  destruct (calculate_probability_itm _ _ _ _ direction) as [prob | e];
    [| discriminate].
  destruct (np_max _) as [mx | e]; [| discriminate].
  destruct (np_min _) as [mn | e]; [| discriminate].
  destruct (np_argmin (map (fun pc => Qabs (pc - _)) grid)) as [ui | e];
    [| discriminate].
  destruct (np_argmin (map (fun pc => Qabs (pc + _)) grid)) as [di | e];
    [| discriminate].
  intro Hr. injection Hr as <-.
  cbn [res_liquidation_long res_liquidation_short].
  destruct (Qltb 1 (leverage hp));
    [destruct (String.eqb (hedge_direction hp) "long") |]; reflexivity.
Qed.

(** A result reports the liquidation threshold of the configured side only:
    with leverage above 1 a long hedge sets [liquidation_long] to the
    negative value [(-100 / leverage) / 100] and leaves [liquidation_short]
    unset, any other direction sets [liquidation_short] to the positive value
    [-(-100 / leverage) / 100] and leaves [liquidation_long] unset; with
    leverage at most 1 neither is set.  The two are never set together. *)
Theorem reported_liquidation_side {L : NumericLib}
    (bp : BinaryOptionParams) (hp : HedgeParams) (direction : string) (num : Z)
    (r : Results) :
  simulate_scenarios bp hp direction num = Ok r ->
  (leverage hp <= 1 ->
   res_liquidation_long r = None /\ res_liquidation_short r = None)
  /\ (1 < leverage hp ->
      if String.eqb (hedge_direction hp) "long"
      then res_liquidation_long r = Some (- (100.0) / leverage hp / 100.0)
           /\ res_liquidation_short r = None
           /\ - (100.0) / leverage hp / 100.0 < 0
      else res_liquidation_short r
           = Some (- (- (100.0) / leverage hp) / 100.0)
           /\ res_liquidation_long r = None
           /\ 0 < - (- (100.0) / leverage hp) / 100.0)
  /\ (res_liquidation_long r = None \/ res_liquidation_short r = None).
Proof.
  intro Hr. pose proof (simulate_scenarios_reporting bp hp direction num r Hr)
    as Hrep.
  split; [| split].
  - intro Hlev. apply Qltb_false in Hlev. rewrite Hlev in Hrep.
    injection Hrep as -> ->. split; reflexivity.
  - intro Hlev. pose proof Hlev as Hb. apply Qltb_true in Hb.
    rewrite Hb in Hrep.
    assert (Hinv : 0 < / leverage hp) by (apply Qinv_lt_0_compat; lra).
    destruct (String.eqb (hedge_direction hp) "long");
      injection Hrep as -> ->; (split; [reflexivity | split; [reflexivity |]]).
    + unfold Qdiv. set (k := / leverage hp) in *.
      assert (H100 : 0 < / 100.0) by reflexivity.
      set (c := / 100.0) in *. nra.
    + unfold Qdiv. set (k := / leverage hp) in *.
      assert (H100 : 0 < / 100.0) by reflexivity.
      set (c := / 100.0) in *. nra.
  - destruct (Qltb 1 (leverage hp));
      [destruct (String.eqb (hedge_direction hp) "long") |];
      injection Hrep as -> ->; auto.
Qed.

Lemma reported_liquidation_side_witness :
  exists r,
    simulate_scenarios (L := RationalLib.lib) (option_at_strike 365)
      (hedge_500 10 "long" true) "up" 5 = Ok r
    /\ (leverage (hedge_500 10 "long" true) <= 1 ->
        res_liquidation_long r = None /\ res_liquidation_short r = None)
    /\ (1 < leverage (hedge_500 10 "long" true) ->
        if String.eqb (hedge_direction (hedge_500 10 "long" true)) "long"
        then res_liquidation_long r
             = Some (- (100.0) / leverage (hedge_500 10 "long" true) / 100.0)
             /\ res_liquidation_short r = None
             /\ - (100.0) / leverage (hedge_500 10 "long" true) / 100.0 < 0
        else res_liquidation_short r
             = Some (- (- (100.0) / leverage (hedge_500 10 "long" true))
                     / 100.0)
             /\ res_liquidation_long r = None
             /\ 0 < - (- (100.0) / leverage (hedge_500 10 "long" true))
                    / 100.0)
    /\ (res_liquidation_long r = None \/ res_liquidation_short r = None).
Proof.
  eexists. split; [vm_compute; reflexivity |].
  apply (reported_liquidation_side (L := RationalLib.lib)
           (option_at_strike 365) (hedge_500 10 "long" true) "up" 5).
  vm_compute. reflexivity.
Defined.

Lemma binary_pnl_at_least_minus_stake (bp : BinaryOptionParams)
    (direction : string) (pc : Q) :
  0 <= investment_amount bp ->
  1 <= payout_multiplier_up bp -> 1 <= payout_multiplier_down bp ->
  - investment_amount bp <= binary_pnl_at bp direction pc.
Proof.
  intros Hinv Hu Hd. unfold binary_pnl_at, calculate_binary_option_payout.
  destruct (_ || _); [| lra].
  destruct (String.eqb direction "up"); nra.
Qed.

(** The worst case of a leveraged position is bounded: with a non-negative
    time to expiry, stake and collateral, payout multipliers of at least 1,
    leverage above 1 and a non-negative fee rate, every total P&L of a
    result, and so its [max_loss], is at least minus the stake, the
    collateral and the entry and exit fee together. *)
Theorem max_loss_is_bounded_when_leveraged {L : NumericLib}
    (bp : BinaryOptionParams) (hp : HedgeParams) (direction : string) (num : Z)
    (r : Results) :
  simulate_scenarios bp hp direction num = Ok r ->
  0 <= time_to_expiry bp ->
  0 <= investment_amount bp ->
  1 <= payout_multiplier_up bp -> 1 <= payout_multiplier_down bp ->
  0 <= hedge_amount hp -> 1 < leverage hp -> 0 <= fee_rate hp ->
  (forall v, In v (res_total_pnl r) ->
     - (investment_amount bp + hedge_amount hp + 2 * entry_fee hp) <= v)
  /\ - (investment_amount bp + hedge_amount hp + 2 * entry_fee hp)
     <= res_max_loss r.
Proof.
  intros Hr _ Hinv Hu Hd Hh Hlev Hf.
  destruct (simulate_scenarios_inv bp hp direction num r Hr)
    as (m & prob & ui & di & _ & _ & _ & _ & Ht & _ & _ & _ & Hmin & _).
  assert (Hall : forall v, In v (res_total_pnl r) ->
            - (investment_amount bp + hedge_amount hp + 2 * entry_fee hp) <= v).
  { intros v Hv. rewrite Ht in Hv. apply in_map_iff in Hv.
    destruct Hv as [pc [<- _]]. unfold total_pnl_at.
    pose proof (binary_pnl_at_least_minus_stake bp direction pc Hinv Hu Hd).
    pose proof (hedge_pnl_floor_round_trip hp pc Hh ltac:(lra) Hf
                  (or_introl Hlev)).
    lra. }
  split; [exact Hall |].
  apply Hall. apply (np_min_spec _ _ Hmin).
Qed.

Lemma max_loss_is_bounded_when_leveraged_witness :
  exists r,
    simulate_scenarios (L := RationalLib.lib) (option_at_strike 365)
      (hedge_500 10 "long" true) "up" 5 = Ok r
    /\ (forall v, In v (res_total_pnl r) ->
          - (investment_amount (option_at_strike 365)
             + hedge_amount (hedge_500 10 "long" true)
             + 2 * entry_fee (hedge_500 10 "long" true)) <= v)
    /\ - (investment_amount (option_at_strike 365)
          + hedge_amount (hedge_500 10 "long" true)
          + 2 * entry_fee (hedge_500 10 "long" true))
       <= res_max_loss r.
Proof.
  eexists. split; [vm_compute; reflexivity |].
  apply (max_loss_is_bounded_when_leveraged (L := RationalLib.lib)
           (option_at_strike 365) (hedge_500 10 "long" true) "up" 5);
    [vm_compute; reflexivity | | | | | | |]; by_evaluation.
Defined.

(** The grid a run sweeps is the one [generate_price_scenarios] returns for
    the same option, unless the leverage extension widens it: they coincide
    when the leverage is at most 1 and when [1.5 / leverage] does not exceed
    the half-width derived from volatility and strike distance. *)
Theorem simulated_grid_is_generated_grid {L : NumericLib}
    (bp : BinaryOptionParams) (hp : HedgeParams) (direction : string) (num : Z)
    (r : Results) :
  simulate_scenarios bp hp direction num = Ok r ->
  leverage hp <= 1
  \/ 1.5 / leverage hp
     <= scenario_half_width (current_price bp) (strike_price bp)
          (implied_volatility bp) (time_to_expiry bp) ->
  generate_price_scenarios (current_price bp) (strike_price bp)
    (implied_volatility bp) (time_to_expiry bp) num
  = Ok (res_price_changes r).
Proof.
  intros Hr Hcase.
  destruct (simulate_scenarios_inv bp hp direction num r Hr)
    as (m & prob & ui & di & Hm & Hgrid & _).
  assert (Hcp : ~ current_price bp == 0).
  { intro Hz. rewrite (grid_half_width_raises bp hp Hz) in Hm. discriminate. }
  rewrite generate_price_scenarios_linspace by exact Hcp.
  rewrite (grid_half_width_ok bp hp Hcp) in Hm. injection Hm as Hm.
  cbv zeta in Hm.
  assert (Hsame : m = scenario_half_width (current_price bp) (strike_price bp)
                        (implied_volatility bp) (time_to_expiry bp)).
  { rewrite <- Hm. destruct (Qltb 1 (leverage hp)) eqn:El; [| reflexivity].
    cmp_cases. destruct Hcase as [Hle | Hnarrow]; [lra |].
    unfold py_max. apply Qltb_false in Hnarrow. rewrite Hnarrow. reflexivity. }
  rewrite <- Hsame. exact Hgrid.
Qed.

Lemma simulated_grid_is_generated_grid_witness :
  exists r,
    simulate_scenarios (L := RationalLib.lib) (option_at_strike 365)
      (hedge_500 10 "long" true) "up" 5 = Ok r
    /\ generate_price_scenarios (L := RationalLib.lib)
         (current_price (option_at_strike 365))
         (strike_price (option_at_strike 365))
         (implied_volatility (option_at_strike 365))
         (time_to_expiry (option_at_strike 365)) 5
       = Ok (res_price_changes r).
Proof.
  eexists. split; [vm_compute; reflexivity |].
  apply (simulated_grid_is_generated_grid (L := RationalLib.lib)
           (option_at_strike 365) (hedge_500 10 "long" true) "up" 5).
  - vm_compute. reflexivity.
  - right. by_evaluation.
Defined.

(** ** The break-even scan: sign changes and exact zeros *)

(** The scan issues at most one break-even per consecutive pair, and none at
    all when the total P&L is strictly positive at every grid point or
    strictly negative at every grid point. *)
Theorem break_even_scan_needs_sign_change (xs ys : list Q) :
  (length (break_even_scan xs ys) <= length ys - 1)%nat
  /\ ((forall y, In y ys -> 0 < y) -> break_even_scan xs ys = [])
  /\ ((forall y, In y ys -> y < 0) -> break_even_scan xs ys = []).
Proof.
  assert (Hstep : forall x0 x1 xs'' y0 y1 ys'',
             break_even_scan (x0 :: x1 :: xs'') (y0 :: y1 :: ys'')
             = if crossing y0 y1
               then be_price x0 x1 y0 y1
                    :: break_even_scan (x1 :: xs'') (y1 :: ys'')
               else break_even_scan (x1 :: xs'') (y1 :: ys''))
    by reflexivity.
  assert (Hshort : forall x0 ys', break_even_scan [x0] ys' = [])
    by (intros x0 [| y ys']; reflexivity).
  split; [| split].
  - revert ys. induction xs as [| x0 xs' IH]; intro ys; [simpl; lia |].
    destruct xs' as [| x1 xs'']; [rewrite Hshort; simpl; lia |].
    destruct ys as [| y0 [| y1 ys'']]; [simpl; lia | simpl; lia |].
    rewrite Hstep. specialize (IH (y1 :: ys'')). simpl length in *.
    destruct (crossing y0 y1); simpl length; lia.
  - revert ys. induction xs as [| x0 xs' IH]; intros ys Hpos; [reflexivity |].
    destruct xs' as [| x1 xs'']; [apply Hshort |].
    destruct ys as [| y0 [| y1 ys'']]; [reflexivity | reflexivity |].
    rewrite Hstep.
    assert (Hc : crossing y0 y1 = false).
    { apply not_true_is_false. intro Hc. apply crossing_cases in Hc.
      pose proof (Hpos y0 (or_introl eq_refl)).
      pose proof (Hpos y1 (or_intror (or_introl eq_refl))).
      destruct Hc as [[? ?] | [? ?]]; lra. }
    rewrite Hc. apply IH. intros y Hy. apply Hpos. right. exact Hy.
  - revert ys. induction xs as [| x0 xs' IH]; intros ys Hneg; [reflexivity |].
    destruct xs' as [| x1 xs'']; [apply Hshort |].
    destruct ys as [| y0 [| y1 ys'']]; [reflexivity | reflexivity |].
    rewrite Hstep.
    assert (Hc : crossing y0 y1 = false).
    { apply not_true_is_false. intro Hc. apply crossing_cases in Hc.
      pose proof (Hneg y0 (or_introl eq_refl)).
      pose proof (Hneg y1 (or_intror (or_introl eq_refl))).
      destruct Hc as [[? ?] | [? ?]]; lra. }
    rewrite Hc. apply IH. intros y Hy. apply Hneg. right. exact Hy.
Qed.

Lemma break_even_scan_needs_sign_change_witness :
  break_even_scan [- 0.1; 0; 0.1] [5; 10; 15] = [].
Proof.
  apply (proj1 (proj2 (break_even_scan_needs_sign_change
                         [- 0.1; 0; 0.1] [5; 10; 15]))).
  intros y [<- | [<- | [<- | []]]]; by_evaluation.
Defined.

(** A total P&L of exactly zero is a break-even only as the left end of a
    pair: followed by a non-zero value it is reported at its own grid point,
    but a zero as the right end of a pair (the last grid point among them)
    is not a crossing, and neither is a pair of two zeros. *)
Theorem break_even_at_exact_zero (x0 x1 y0 y1 : Q) :
  (y0 == 0 -> ~ y1 == 0 ->
   crossing y0 y1 = true
   /\ exists b, be_price x0 x1 y0 y1 = Fin b /\ b == x0)
  /\ (y1 == 0 -> crossing y0 y1 = false).
Proof.
  split.
  - intros H0 H1.
    assert (Hc : crossing y0 y1 = true).
    { apply crossing_cases.
      destruct (Qlt_le_dec 0 y1) as [Hpos | Hnp]; [left; lra |].
      right. split; [lra |].
      destruct (Qlt_le_dec y1 0) as [Hneg | Hnn]; [exact Hneg |].
      exfalso. apply H1. lra. }
    split; [exact Hc |].
    destruct (be_price_of_crossing x0 x1 y0 y1 Hc) as (b & Hb & Hval & _).
    exists b. split; [exact Hb |]. rewrite Hval.
    assert (Hd : ~ y1 - y0 == 0) by (apply crossing_denominator; exact Hc).
    assert (Hw : (- y0 / (y1 - y0)) * (y1 - y0) == - y0)
      by (apply Qdiv_mult_cancel; exact Hd).
    set (w := - y0 / (y1 - y0)) in *.
    assert (Hw0 : w * (y1 - y0) == 0) by lra.
    destruct (Qmult_integral _ _ Hw0) as [Hz | Hz]; [| contradiction].
    rewrite Hz. ring.
  - intro H1. apply not_true_is_false. intro Hc. apply crossing_cases in Hc.
    destruct Hc as [[? ?] | [? ?]]; lra.
Qed.

Lemma break_even_at_exact_zero_witness :
  crossing 0 10 = true
  /\ exists b, be_price (- 0.1) 0.1 0 10 = Fin b /\ b == - 0.1.
Proof.
  apply (proj1 (break_even_at_exact_zero (- 0.1) 0.1 0 10));
    [reflexivity | by_evaluation].
Defined.

(** ** Leverage and liquidation *)

(** Once the liquidation test holds, the loss no longer depends on the price
    change: for either direction, with or without fees, it is the collateral
    plus the entry fee, so any two liquidated price changes give the same
    P&L. *)
Theorem liquidated_loss_is_constant (hedge : HedgeParams) (pc1 pc2 : Q) :
  is_liquidated hedge pc1 = true ->
  is_liquidated hedge pc2 = true ->
  calculate_hedge_pnl hedge pc1 = calculate_hedge_pnl hedge pc2
  /\ calculate_hedge_pnl hedge pc1
     == - (hedge_amount hedge + entry_fee hedge).
Proof.
  unfold is_liquidated, calculate_hedge_pnl, entry_fee.
  destruct (Qle_bool (leverage hedge) 1); cbn [negb andb]; [discriminate |].
  destruct (String.eqb (hedge_direction hedge) "long");
    intros -> ->; (split; [reflexivity |]);
    destruct (apply_fees hedge); ring.
Qed.

Lemma liquidated_loss_is_constant_witness :
  calculate_hedge_pnl (hedge_500 10 "short" true) 0.15
  = calculate_hedge_pnl (hedge_500 10 "short" true) 0.9
  /\ calculate_hedge_pnl (hedge_500 10 "short" true) 0.15
     == - (hedge_amount (hedge_500 10 "short" true)
           + entry_fee (hedge_500 10 "short" true)).
Proof.
  apply liquidated_loss_is_constant; reflexivity.
Defined.

(** A leverage below 1 does not reduce the exposure: without fees, a
    leverage of at most 1 (a fraction included) gives exactly the hedge P&L
    of leverage 1, at every price change and for either direction. *)
Theorem fractional_leverage_is_ignored (h l f : Q) (d : string) (pc : Q) :
  l <= 1 ->
  calculate_hedge_pnl (mkHedgeParams h l d false f) pc
  = calculate_hedge_pnl (mkHedgeParams h 1 d false f) pc.
Proof.
  unfold calculate_hedge_pnl.
  cbn [hedge_direction hedge_amount leverage apply_fees fee_rate].
  change (Qle_bool 1 1) with true. cbv iota.
  intro Hl. apply Qle_bool_iff in Hl. rewrite Hl. reflexivity.
Qed.

Lemma fractional_leverage_is_ignored_witness :
  calculate_hedge_pnl (mkHedgeParams 500 0.5 "long" false 0.001) (- 0.2)
  = calculate_hedge_pnl (mkHedgeParams 500 1 "long" false 0.001) (- 0.2).
Proof.
  apply fractional_leverage_is_ignored. by_evaluation.
Defined.
